(** * matched_images_labels.py: the annotated-data filter

    A shallow embedding of [filter_annotated_data] and of the parts of
    [str], [pathlib], [os], [shutil] and [logging] it calls, followed by
    the properties of the filter.

    Modelling conventions.
    - A Python [str] is a [string]; the program only cuts strings at the
      ASCII characters '-' and '.', and compares a suffix with ".txt"
      after lowering it, so for UTF-8 encoded names the byte-wise
      operations agree with the code-point-wise ones of Python.
    - A [Path] is the list of its components, innermost first: the root is
      [[]], [d / n] is [n :: d], [Path.name] is the head and [Path.parent]
      the tail.  Paths are taken resolved; symbolic and hard links,
      permissions and time stamps are outside the model.
    - The file system is a finite map from paths to nodes; a node is a
      directory or a regular file with its bytes.  [shutil.copy2] is the
      copy of the bytes; the metadata it also copies is not modelled.
    - Effects go through a state-and-exception monad over the file system
      and a chronological trace of log records and completed copies. *)

From stdpp Require Import gmap strings list fin_maps.
From Stdlib.Strings Require Import Ascii String Byte.
From Stdlib Require Import ZArith.

Open Scope string_scope.
Open Scope list_scope.

(** ** Python [str] methods *)

Module PyStr.

(** [str.lower] on one ASCII character. *)
Definition lower_char (c : ascii) : ascii :=
  let n := nat_of_ascii c in
  if (65 <=? n)%nat && (n <=? 90)%nat then ascii_of_nat (n + 32) else c.

(** [s.lower()] *)
Fixpoint lower (s : string) : string :=
  match s with
  | EmptyString => EmptyString
  | String c s' => String (lower_char c) (lower s')
  end.

(** [s.split(sep)] for a one-character separator: never the empty list,
    [''.split('-') == ['']]. *)
Fixpoint split (sep : ascii) (s : string) : list string :=
  match s with
  | EmptyString => [EmptyString]
  | String c s' =>
      if decide (c = sep) then EmptyString :: split sep s'
      else match split sep s' with
           | [] => [String c EmptyString]
           | w :: ws => String c w :: ws
           end
  end.

(** [sep.join(parts)] *)
Fixpoint join (sep : string) (parts : list string) : string :=
  match parts with
  | [] => EmptyString
  | w :: ws =>
      match ws with
      | [] => w
      | _ :: _ => w +:+ sep +:+ join sep ws
      end
  end.


End PyStr.

(** ** [pathlib]: pure path operations *)

Definition path := list string.

Declare Scope path_scope.
Delimit Scope path_scope with path.
Bind Scope path_scope with path.

(** [d / n] of [pathlib], for a name [n] that is one component. *)
Definition joinpath (d : path) (n : string) : path := n :: d.
Notation "d / n" := (joinpath d n) : path_scope.
Open Scope path_scope.

Module PurePath.

(** [Path.name]: the final component (the empty string for the root). *)
Definition name (p : path) : string := hd EmptyString p.

(** [Path.parent]; the root is its own parent. *)
Definition parent (p : path) : path := tl p.

(** The text after the last '.' of [s], when [s] has one. *)
Fixpoint after_last_dot (s : string) : option string :=
  match s with
  | EmptyString => None
  | String c s' =>
      match after_last_dot s' with
      | Some t => Some t
      | None => if decide (c = "."%char) then Some s' else None
      end
  end.

(** The text before the last '.' of [s] (all of [s] when it has none). *)
Fixpoint before_last_dot (s : string) : string :=
  match s with
  | EmptyString => EmptyString
  | String c s' =>
      match after_last_dot s' with
      | Some _ => String c (before_last_dot s')
      | None => if decide (c = "."%char) then EmptyString else String c (before_last_dot s')
      end
  end.

(** [i = name.rfind('.')] and the test [0 < i < len(name) - 1] of
    [PurePath.suffix] and [PurePath.stem] (pathlib of Python 3.12): the
    last dot is neither the first nor the last character of the name.
    When the test holds the result is the text after that dot. *)
Definition split_suffix (nm : string) : option string :=
  match nm with
  | EmptyString => None
  | String _ rest =>
      match after_last_dot rest with
      | Some EmptyString => None
      | Some t => Some t
      | None => None
      end
  end.

(** [PurePath.suffix]: [name[i:]] or ['']. *)
Definition suffix_of_name (nm : string) : string :=
  match split_suffix nm with
  | Some t => String "."%char t
  | None => EmptyString
  end.

(** [PurePath.stem]: [name[:i]] or [name]. *)
Definition stem_of_name (nm : string) : string :=
  match split_suffix nm with
  | Some _ => before_last_dot nm
  | None => nm
  end.

Definition suffix (p : path) : string := suffix_of_name (name p).
Definition stem (p : path) : string := stem_of_name (name p).

End PurePath.

(** ** The file system *)

#[global] Instance byte_eq_dec : EqDecision byte := Byte.byte_eq_dec.

Inductive node :=
| Dir
| File (data : list byte).

#[global] Instance node_eq_dec : EqDecision node.
Proof. solve_decision. Defined.

Abbreviation filesystem := (gmap path node).

Module FS.

(** [os.stat]: the root directory always exists. *)
Definition stat (m : filesystem) (p : path) : option node :=
  match p with
  | [] => Some Dir
  | _ :: _ => m !! p
  end.

Definition is_dir (m : filesystem) (p : path) : bool :=
  match stat m p with Some Dir => true | _ => false end.

Definition is_file (m : filesystem) (p : path) : bool :=
  match stat m p with Some (File _) => true | _ => false end.

Definition exists_ (m : filesystem) (p : path) : bool :=
  match stat m p with Some _ => true | None => false end.

(** The names of the entries of directory [d], in the order of the map. *)
Definition entries (m : filesystem) (d : path) : list string :=
  omap (λ kv : path * node,
          match kv.1 with
          | n :: d' => if decide (d' = d) then Some n else None
          | [] => None
          end) (map_to_list m).

(** Every entry lies in a directory: what a real file system guarantees.
    The operations below check what they need themselves. *)
Definition well_formed (m : filesystem) : Prop :=
  map_Forall (λ p _, is_dir m (PurePath.parent p) = true) m.

#[global] Instance well_formed_dec m : Decision (well_formed m).
Proof. unfold well_formed. apply _. Defined.

End FS.

(** ** Exceptions *)

Inductive exn :=
| FileNotFoundError (p : path)
| FileExistsError (p : path)
| NotADirectoryError (p : path)
| IsADirectoryError (p : path)
| SameFileError (src dst : path)
| SystemExit (code : Z).

#[global] Instance exn_eq_dec : EqDecision exn.
Proof. solve_decision. Defined.

(** [isinstance(e, Exception)]: [SystemExit] derives from [BaseException]
    only, the others from [OSError]. *)
Definition is_Exception (e : exn) : bool :=
  match e with
  | SystemExit _ => false
  | _ => true
  end.

Definition is_FileNotFoundError (e : exn) : bool :=
  match e with
  | FileNotFoundError _ => true
  | _ => false
  end.

(** ** [os], [pathlib] and [shutil] on the file system *)

Module OS.
Import FS.

(** [os.mkdir(p)] *)
Definition mkdir (p : path) (m : filesystem) : exn + filesystem :=
  match stat m p with
  | Some _ => inl (FileExistsError p)
  | None =>
      match stat m (PurePath.parent p) with
      | None => inl (FileNotFoundError p)
      | Some (File _) => inl (NotADirectoryError p)
      | Some Dir => inr (<[p := Dir]> m)
      end
  end.

(** [Path.mkdir(parents=False, exist_ok=True)]: the handlers of
    [Path.mkdir] around [os.mkdir] when [parents] is false. *)
Definition mkdir_exist_ok (p : path) (m : filesystem) : exn + filesystem :=
  match mkdir p m with
  | inr m' => inr m'
  | inl e =>
      if is_FileNotFoundError e then inl e
      else if is_dir m p then inr m else inl e
  end.

(** [Path.mkdir(parents=True, exist_ok=True)]: on [FileNotFoundError]
    the parent is created first (unless the path is its own parent),
    then the directory itself; on another [OSError] an existing
    directory is accepted. *)
Fixpoint mkdir_parents (p : path) (m : filesystem) : exn + filesystem :=
  match mkdir p m with
  | inr m' => inr m'
  | inl e =>
      if is_FileNotFoundError e then
        match p with
        | [] => inl e
        | _ :: parent =>
            match mkdir_parents parent m with
            | inl e' => inl e'
            | inr m' => mkdir_exist_ok p m'
            end
        end
      else if is_dir m p then inr m else inl e
  end.

(** [open(p, 'rb').read()] *)
Definition read_bytes (p : path) (m : filesystem) : exn + list byte :=
  match stat m p with
  | None => inl (FileNotFoundError p)
  | Some Dir => inl (IsADirectoryError p)
  | Some (File data) => inr data
  end.

(** [open(p, 'wb').write(data)]: creates or truncates [p]. *)
Definition write_bytes (p : path) (data : list byte) (m : filesystem) : exn + filesystem :=
  match stat m p with
  | Some Dir => inl (IsADirectoryError p)
  | _ =>
      match stat m (PurePath.parent p) with
      | None => inl (FileNotFoundError p)
      | Some (File _) => inl (NotADirectoryError p)
      | Some Dir => inr (<[p := File data]> m)
      end
  end.

(** [shutil._samefile]: without links, two paths name the same file when
    they are equal and the file exists. *)
Definition samefile (src dst : path) (m : filesystem) : bool :=
  bool_decide (src = dst) && exists_ m src.

(** [shutil.copyfile(src, dst)] *)
Definition copyfile (src dst : path) (m : filesystem) : exn + filesystem :=
  if samefile src dst m then inl (SameFileError src dst)
  else
    match read_bytes src m with
    | inl e => inl e
    | inr data => write_bytes dst data m
    end.

(** The destination [shutil.copy2] writes to: a directory given as
    destination stands for the file of the same name inside it. *)
Definition copy2_target (src dst : path) (m : filesystem) : path :=
  if is_dir m dst then dst / PurePath.name src else dst.

(** [shutil.copy2(src, dst)], returning the file system and the target. *)
Definition copy2 (src dst : path) (m : filesystem) : exn + (filesystem * path) :=
  let target := copy2_target src dst m in
  match copyfile src target m with
  | inl e => inl e
  | inr m' => inr (m', target)
  end.

End OS.

(** ** [logging] records and the trace *)

Inductive level := INFO | WARNING | ERROR.

Inductive message :=
| SourcesNotFound (images labels classes : bool)
| CreatedOutputDirectory (out : path)
| StartingFiltering
| SkippingLabel (label_name image_filename : string)
| ErrorProcessingLabel (label_name : string) (e : exn)
| FilteringComplete (copied_count : nat)
| FilteredDataAvailable (out : path)
| ScriptFinished
| ErrorDuringFiltering (e : exn).

Inductive event :=
| Logged (lvl : level) (msg : message)
| Copied (src dst : path).

#[global] Instance level_eq_dec : EqDecision level.
Proof. solve_decision. Defined.
#[global] Instance message_eq_dec : EqDecision message.
Proof. solve_decision. Defined.
#[global] Instance event_eq_dec : EqDecision event.
Proof. solve_decision. Defined.

(** ** The monad of the program: state and exceptions *)

Record state := State { fs : filesystem; trace : list event }.

Inductive outcome (A : Type) :=
| Ok (a : A)
| Raise (e : exn).
Arguments Ok {A} a.
Arguments Raise {A} e.

#[global] Instance state_eq_dec : EqDecision state.
Proof. solve_decision. Defined.
#[global] Instance outcome_eq_dec {A} `{EqDecision A} : EqDecision (outcome A).
Proof. solve_decision. Defined.

Definition M (A : Type) : Type := state → outcome A * state.

Definition ret {A} (a : A) : M A := λ s, (Ok a, s).

Definition bind {A B} (c : M A) (k : A → M B) : M B :=
  λ s, match c s with
       | (Ok a, s') => k a s'
       | (Raise e, s') => (Raise e, s')
       end.

Declare Scope prog_scope.
Delimit Scope prog_scope with prog.
Notation "x ← c ; k" := (bind c (λ x, k))
  (at level 20, c at level 100, k at level 200, only parsing) : prog_scope.
Notation "c ;; k" := (bind c (λ _, k))
  (at level 100, k at level 200, only parsing, right associativity) : prog_scope.
Open Scope prog_scope.

Definition raise {A} (e : exn) : M A := λ s, (Raise e, s).

(** [try: body except Exception as e: handler(e)] *)
Definition try_except {A} (body : M A) (handler : exn → M A) : M A :=
  λ s, match body s with
       | (Ok a, s') => (Ok a, s')
       | (Raise e, s') => if is_Exception e then handler e s' else (Raise e, s')
       end.

(** Reading the file system. *)
Definition query {A} (f : filesystem → A) : M A := λ s, (Ok (f (fs s)), s).

(** A file-system operation that may raise; the trace is untouched. *)
Definition update (f : filesystem → exn + filesystem) : M unit :=
  λ s, match f (fs s) with
       | inl e => (Raise e, s)
       | inr m' => (Ok tt, State m' (trace s))
       end.

Definition emit (ev : event) : M unit :=
  λ s, (Ok tt, State (fs s) (trace s ++ [ev])).

Definition logging_info (msg : message) : M unit := emit (Logged INFO msg).
Definition logging_warning (msg : message) : M unit := emit (Logged WARNING msg).
Definition logging_error (msg : message) : M unit := emit (Logged ERROR msg).

(** [sys.exit(code)] *)
Definition sys_exit {A} (code : Z) : M A := raise (SystemExit code).

(** [shutil.copy2(src, dst)]; a completed copy is recorded in the trace
    with the path it wrote. *)
Definition shutil_copy2 (src dst : path) : M path :=
  λ s, match OS.copy2 src dst (fs s) with
       | inl e => (Raise e, s)
       | inr (m', target) => (Ok target, State m' (trace s ++ [Copied src target]))
       end.

(** [p.mkdir(parents=True, exist_ok=True)] *)
Definition Path_mkdir (p : path) : M unit := update (OS.mkdir_parents p).

(** ** [filter_annotated_data] *)

Section Filter.

(** The order in which the operating system lists a directory is not
    specified: [listdir_order] stands for it. *)
Variable listdir_order : list string → list string.

(** [list(d.iterdir())] *)
Definition iterdir (d : path) : M (list path) :=
  λ s, match FS.stat (fs s) d with
       | Some Dir => (Ok ((λ n, d / n) <$> listdir_order (FS.entries (fs s) d)), s)
       | Some (File _) => (Raise (NotADirectoryError d), s)
       | None => (Raise (FileNotFoundError d), s)
       end.

(** Lines 57-61: the frame name recovered from a label's stem. *)
Definition image_base_name (stem : string) : string :=
  let parts := PyStr.split "-" stem in
  if (1 <? List.length parts)%nat then PyStr.join "-" (tl parts)
  else stem.

(** Line 64 *)
Definition image_filename (label_path : path) : string :=
  image_base_name (PurePath.stem label_path) +:+ ".jpg".

(** Lines 57-75, the body of the [try] statement. *)
Definition process_label_try (source_images_dir output_filtered_dir : path)
    (label_path : path) (copied_count : nat) : M nat :=
  let image_filename := image_filename label_path in
  let source_image_path := source_images_dir / image_filename in
  found ← query (λ m, FS.is_file m source_image_path);
  if found then
    shutil_copy2 source_image_path (output_filtered_dir / "images" / image_filename);;
    shutil_copy2 label_path (output_filtered_dir / "labels" / PurePath.name label_path);;
    ret (copied_count + 1)
  else
    logging_warning (SkippingLabel (PurePath.name label_path) image_filename);;
    ret copied_count.

(** Lines 55-77, one iteration of the loop: [copied_count] is left as it
    was when the handler runs. *)
Definition process_label (source_images_dir output_filtered_dir : path)
    (label_path : path) (copied_count : nat) : M nat :=
  try_except
    (process_label_try source_images_dir output_filtered_dir label_path copied_count)
    (λ e, logging_error (ErrorProcessingLabel (PurePath.name label_path) e);;
          ret copied_count).

(** Lines 51-77, [for label_path in label_files: ...] *)
Fixpoint process_labels (source_images_dir output_filtered_dir : path)
    (label_files : list path) (copied_count : nat) : M nat :=
  match label_files with
  | [] => ret copied_count
  | label_path :: rest =>
      copied_count ← process_label source_images_dir output_filtered_dir
                       label_path copied_count;
      process_labels source_images_dir output_filtered_dir rest copied_count
  end.

(** Line 46, the condition of the list comprehension. *)
Definition is_label_file (m : filesystem) (f : path) : bool :=
  FS.is_file m f && bool_decide (PyStr.lower (PurePath.suffix f) = ".txt").

Definition filter_annotated_data
    (source_images_dir source_labels_dir output_filtered_dir source_classes_file : path)
    : M unit :=
  images_ok ← query (λ m, FS.is_dir m source_images_dir);
  labels_ok ← query (λ m, FS.is_dir m source_labels_dir);
  classes_ok ← query (λ m, FS.is_file m source_classes_file);
  if negb (images_ok && labels_ok && classes_ok) then
    images ← query (λ m, FS.exists_ m source_images_dir);
    labels ← query (λ m, FS.exists_ m source_labels_dir);
    classes ← query (λ m, FS.exists_ m source_classes_file);
    logging_error (SourcesNotFound images labels classes);;
    sys_exit 1
  else
    Path_mkdir (output_filtered_dir / "images");;
    Path_mkdir (output_filtered_dir / "labels");;
    logging_info (CreatedOutputDirectory output_filtered_dir);;
    listing ← iterdir source_labels_dir;
    label_files ← query (λ m, filter (λ f, is_label_file m f = true) listing);
    let copied_count := 0 in
    logging_info StartingFiltering;;
    copied_count ← process_labels source_images_dir output_filtered_dir
                     label_files copied_count;
    shutil_copy2 source_classes_file
      (output_filtered_dir / PurePath.name source_classes_file);;
    logging_info (FilteringComplete copied_count);;
    logging_info (FilteredDataAvailable output_filtered_dir).

(** Lines 105-115, the script: a [SystemExit] passes the handler. *)
Definition script (images labels output classes : path) : M unit :=
  try_except
    (filter_annotated_data images labels output classes;;
     logging_info ScriptFinished)
    (λ e, logging_error (ErrorDuringFiltering e);;
          sys_exit 1).

(** The exit status of the interpreter. *)
Definition exit_status (r : outcome unit) : Z :=
  match r with
  | Ok _ => 0
  | Raise (SystemExit code) => code
  | Raise _ => 1
  end.

End Filter.

(** Lines 90-102: the paths configured in the script. *)
Definition SOURCE_IMAGES_FROM_LS_EXPORT : path :=
  [] / "media" / "aariyan" / "PseudoCode" / "AI" / "Labelling" / "canteen_labels"
     / "project-1-at-2025-07-07-12-01-dd1d44d3" / "images".
Definition SOURCE_LABELS_FROM_LS_EXPORT : path :=
  [] / "media" / "aariyan" / "PseudoCode" / "AI" / "Labelling" / "canteen_labels"
     / "project-1-at-2025-07-07-12-01-dd1d44d3" / "labels".
Definition SOURCE_CLASSES_FILE_FROM_LS_EXPORT : path :=
  [] / "media" / "aariyan" / "PseudoCode" / "AI" / "Labelling" / "canteen_labels"
     / "project-1-at-2025-07-07-12-01-dd1d44d3" / "classes.txt".
Definition OUTPUT_FILTERED_DATA_DIR : path :=
  [] / "media" / "aariyan" / "PseudoCode" / "AI" / "Labelling" / "canteen_labels"
     / "project-1-at-2025-07-07-12-01-dd1d44d3" / "filtered_data".

(** Lines 85-115: the script with its configuration. *)
Definition main (listdir_order : list string → list string) : M unit :=
  script listdir_order
    SOURCE_IMAGES_FROM_LS_EXPORT SOURCE_LABELS_FROM_LS_EXPORT
    OUTPUT_FILTERED_DATA_DIR SOURCE_CLASSES_FILE_FROM_LS_EXPORT.

(** ** Vocabulary of the statements *)

Import FS.


(** [m'] is [m] with some directories added where nothing was. *)
Definition dirs_added (m m' : filesystem) : Prop :=
  ∀ p, stat m' p = stat m p ∨ (stat m p = None ∧ stat m' p = Some Dir).

(** Lines 69 and 72: the destinations given to [shutil.copy2]. *)
Definition image_dst (out l : path) : path := out / "images" / image_filename l.
Definition label_dst (out l : path) : path := out / "labels" / PurePath.name l.

(** Line 33 *)
Definition sources_valid (m : filesystem) (imgs lbls cls : path) : bool :=
  is_dir m imgs && is_dir m lbls && is_file m cls.

(** Lines 40-41 on the file system. *)
Definition output_dirs (out : path) (m : filesystem) : exn + filesystem :=
  match OS.mkdir_parents (out / "images") m with
  | inl e => inl e
  | inr m1 => OS.mkdir_parents (out / "labels") m1
  end.

(** Line 46 *)
Definition label_files (order : list string → list string) (lbls : path)
    (m : filesystem) : list path :=
  filter (λ f, is_label_file m f = true) ((λ n, lbls / n) <$> order (entries m lbls)).

(** Names of images and of labels. *)
Definition jpg_name (n : string) : Prop := ∃ b, n = b +:+ ".jpg".
Definition txt_name (x : string) : Prop :=
  PyStr.lower (PurePath.suffix_of_name x) = ".txt".

(** The paths the loop reads from. *)
Definition source_like (imgs lbls p : path) : Prop :=
  (∃ n, jpg_name n ∧ p = imgs / n) ∨ (∃ x, txt_name x ∧ p = lbls / x).

(** The copies the loop can make: from where to where. *)
Definition loop_copy (imgs lbls out src t : path) : Prop :=
  (∃ n, jpg_name n ∧ src = imgs / n ∧
        (t = out / "images" / n ∨ t = out / "images" / n / n)) ∨
  (∃ x, txt_name x ∧ src = lbls / x ∧
        (t = out / "labels" / x ∨ t = out / "labels" / x / x)).

(** One copy made by the loop, on the file system. *)
Definition copy_write (imgs lbls out src t : path) (m m' : filesystem) : Prop :=
  loop_copy imgs lbls out src t ∧ t ≠ src ∧ is_dir m t = false ∧
  ∃ data, stat m src = Some (File data) ∧ m' = <[t := File data]> m.

(** What the loop does to the state, one record or one copy at a time. *)
Inductive loop_run (imgs lbls out : path) (s : state) : state → Prop :=
| loop_run_refl : loop_run imgs lbls out s s
| loop_run_log s' lvl msg :
    loop_run imgs lbls out s s' →
    loop_run imgs lbls out s (State (fs s') (trace s' ++ [Logged lvl msg]))
| loop_run_copy s' src t m' :
    loop_run imgs lbls out s s' →
    copy_write imgs lbls out src t (fs s') m' →
    loop_run imgs lbls out s (State m' (trace s' ++ [Copied src t])).

Definition is_label (lbls l : path) : Prop := ∃ x, txt_name x ∧ l = lbls / x.

(** The four ways one iteration can go. *)
Inductive iteration (imgs out l : path) (k : nat) (s : state) : nat → state → Prop :=
| iteration_skip :
    is_file (fs s) (imgs / image_filename l) = false →
    iteration imgs out l k s k
      (State (fs s) (trace s ++ [Logged WARNING
                                   (SkippingLabel (PurePath.name l) (image_filename l))]))
| iteration_image_error e :
    is_file (fs s) (imgs / image_filename l) = true →
    OS.copy2 (imgs / image_filename l) (image_dst out l) (fs s) = inl e →
    iteration imgs out l k s k
      (State (fs s) (trace s ++ [Logged ERROR (ErrorProcessingLabel (PurePath.name l) e)]))
| iteration_label_error m1 t1 e :
    is_file (fs s) (imgs / image_filename l) = true →
    OS.copy2 (imgs / image_filename l) (image_dst out l) (fs s) = inr (m1, t1) →
    OS.copy2 l (label_dst out l) m1 = inl e →
    iteration imgs out l k s k
      (State m1 (trace s ++ [Copied (imgs / image_filename l) t1;
                             Logged ERROR (ErrorProcessingLabel (PurePath.name l) e)]))
| iteration_copied m1 t1 m2 t2 :
    is_file (fs s) (imgs / image_filename l) = true →
    OS.copy2 (imgs / image_filename l) (image_dst out l) (fs s) = inr (m1, t1) →
    OS.copy2 l (label_dst out l) m1 = inr (m2, t2) →
    iteration imgs out l k s (k + 1)
      (State m2 (trace s ++ [Copied (imgs / image_filename l) t1; Copied l t2])).

(** Whether the trace has a completed copy of [src]. *)
Definition copied_from (src : path) (tr : list event) : bool :=
  existsb (λ ev, match ev with
                 | Copied s _ => bool_decide (s = src)
                 | Logged _ _ => false
                 end) tr.

(** What is known after the labels [done] have been processed, starting
    in state [sa] with count [k0]. *)
Definition labels_inv (imgs lbls out : path) (sa : state) (k0 : nat)
    (done : list path) (k : nat) (s : state) : Prop :=
  loop_run imgs lbls out sa s ∧
  ∃ new : list event, trace s = trace sa ++ new ∧
    (∀ src t, Copied src t ∈ new →
       ∃ l, l ∈ done ∧
         (src = imgs / image_filename l ∨
          (src = l ∧ ∃ t1, Copied (imgs / image_filename l) t1 ∈ new))) ∧
    (∀ l, l ∈ done →
       (is_file (fs sa) (imgs / image_filename l) = false ∧
        Logged WARNING (SkippingLabel (PurePath.name l) (image_filename l)) ∈ new) ∨
       (is_file (fs sa) (imgs / image_filename l) = true ∧
        ∃ e, Logged ERROR (ErrorProcessingLabel (PurePath.name l) e) ∈ new) ∨
       (is_file (fs sa) (imgs / image_filename l) = true ∧
        ∃ t1 t2, Copied (imgs / image_filename l) t1 ∈ new ∧ Copied l t2 ∈ new)) ∧
    (∀ l, l ∈ done → ∀ m1 t1,
       OS.copy2 (imgs / image_filename l) (image_dst out l) (fs sa) = inr (m1, t1) →
       Copied (imgs / image_filename l) t1 ∈ new ∧
       ∀ m2 t2, OS.copy2 l (label_dst out l) (fs sa) = inr (m2, t2) → Copied l t2 ∈ new) ∧
    k = k0 + List.length (filter (λ l, copied_from l new = true) done).

(** The records logged before the loop (lines 43 and 50). *)
Definition prelude (out : path) : list event :=
  [Logged INFO (CreatedOutputDirectory out); Logged INFO StartingFiltering].

(** A completed copy of [src] to a path under [dir]. *)
Definition is_copy_into (src dir : path) (ev : event) : bool :=
  match ev with
  | Copied s t => bool_decide (s = src) && bool_decide (dir `suffix_of` t)
  | Logged _ _ => false
  end.

(** The trace has the copy of the label's image under "images" and the
    copy of the label under "labels". *)
Definition pair_copied (imgs out : path) (tr : list event) (l : path) : bool :=
  existsb (is_copy_into (imgs / image_filename l) (out / "images")) tr &&
  existsb (is_copy_into l (out / "labels")) tr.

(** The paths the function reads: the two directories, the class file
    and the entries of the two directories. *)
Definition is_source_path (imgs lbls cls p : path) : Prop :=
  p = imgs ∨ p = lbls ∨ p = cls ∨
  PurePath.parent p = imgs ∨ PurePath.parent p = lbls.

(** The part of the file system at those paths. *)
Definition sources (imgs lbls cls : path) (m : filesystem) : filesystem :=
  filter (λ kv, is_source_path imgs lbls cls kv.1) m.

(** The records of label [l] when it is processed on [m] with an empty
    trace: what the label gets when it is the only one. *)
Definition alone (imgs out : path) (m : filesystem) (l : path) : list event :=
  trace (process_label imgs out l 0 (State m [])).2.

(** The number of labels of [ls] that are copied when processed alone
    on [m]. *)
Definition pairs_alone (imgs out : path) (m : filesystem) (ls : list path) : nat :=
  List.length (filter (λ l, copied_from l (alone imgs out m l) = true) ls).

(** What [shutil.copy2] answers: the exception or the path written. *)
Definition copy2_answer (src dst : path) (m : filesystem) : exn + path :=
  match OS.copy2 src dst m with
  | inl e => inl e
  | inr (_, t) => inr t
  end.

(** Warnings and errors of the log, and their number. *)
Definition is_warning (ev : event) : bool :=
  match ev with Logged WARNING _ => true | _ => false end.
Definition is_error (ev : event) : bool :=
  match ev with Logged ERROR _ => true | _ => false end.
Definition count_records (f : event → bool) (tr : list event) : nat :=
  List.length (filter (λ ev, f ev = true) tr).

(** [m'] is [m] with directories added where nothing was, each the
    path [p] or one of its ancestors. *)
Definition ancestors_added (p : path) (m m' : filesystem) : Prop :=
  ∀ q, stat m' q = stat m q ∨
       (stat m q = None ∧ stat m' q = Some Dir ∧ q `suffix_of` p).

(** The output directory and the sources lie apart: the output
    directory is not inside the images or the labels directory, and
    neither of them, nor the class file, is inside the output
    directory. *)
Definition apart (imgs lbls out cls : path) : Prop :=
  ¬ out `suffix_of` imgs ∧ ¬ imgs `suffix_of` out ∧
  ¬ out `suffix_of` lbls ∧ ¬ lbls `suffix_of` out ∧
  ¬ out `suffix_of` cls.

(** ** Example file systems *)

Module Example.

Definition data : path := [] / "data".
Definition images : path := data / "images".
Definition labels : path := data / "labels".
Definition classes : path := data / "classes.txt".
Definition filtered : path := data / "out".

(** An export of the annotation tool: two images; labels for both, one
    of them without identifier; one label without image; a file that is
    not a label. *)
Definition export : filesystem :=
  list_to_map
    [ (data, Dir); (images, Dir); (labels, Dir);
      (classes, File [x63; x61; x74]);
      (images / "f1.jpg", File [x01; x02]);
      (images / "f2.jpg", File [x03]);
      (labels / "ab-f1.txt", File [x11]);
      (labels / "f2.TXT", File [x12; x13]);
      (labels / "cd-f3.txt", File [x14]);
      (labels / "notes.md", File [x15]) ].

(** The export once the output directories exist. *)
Definition export_prepared : filesystem :=
  <[filtered / "labels" := Dir]>
    (<[filtered / "images" := Dir]> (<[filtered := Dir]> export)).

(** The export after the run. *)
Definition export_filtered : filesystem :=
  <[filtered / "classes.txt" := File [x63; x61; x74]]>
    (<[filtered / "labels" / "f2.TXT" := File [x12; x13]]>
      (<[filtered / "images" / "f2.jpg" := File [x03]]>
        (<[filtered / "labels" / "ab-f1.txt" := File [x11]]>
          (<[filtered / "images" / "f1.jpg" := File [x01; x02]]> export_prepared)))).

Definition export_trace : list event :=
  [Logged INFO (CreatedOutputDirectory filtered);
   Logged INFO StartingFiltering;
   Logged WARNING (SkippingLabel "cd-f3.txt" "f3.jpg");
   Copied (images / "f1.jpg") (filtered / "images" / "f1.jpg");
   Copied (labels / "ab-f1.txt") (filtered / "labels" / "ab-f1.txt");
   Copied (images / "f2.jpg") (filtered / "images" / "f2.jpg");
   Copied (labels / "f2.TXT") (filtered / "labels" / "f2.TXT");
   Copied classes (filtered / "classes.txt");
   Logged INFO (FilteringComplete 2);
   Logged INFO (FilteredDataAvailable filtered)].

(** The labels are kept apart from the images, and the output directory
    is the one that holds the images. *)
Definition annotations : path := [] / "ann".
Definition split_export : filesystem :=
  list_to_map
    [ (data, Dir); (images, Dir);
      (images / "f1.jpg", File [x01; x02]);
      (annotations, Dir); (annotations / "labels", Dir);
      (annotations / "classes.txt", File [x63]);
      (annotations / "labels" / "ab-f1.txt", File [x11]) ].

Definition split_export_prepared : filesystem :=
  <[data / "labels" := Dir]> split_export.

Definition split_export_trace : list event :=
  [Logged INFO (CreatedOutputDirectory data);
   Logged INFO StartingFiltering;
   Logged ERROR (ErrorProcessingLabel "ab-f1.txt"
                   (SameFileError (images / "f1.jpg") (images / "f1.jpg")));
   Copied (annotations / "classes.txt") (data / "classes.txt");
   Logged INFO (FilteringComplete 0);
   Logged INFO (FilteredDataAvailable data)].

(** The images path is a regular file. *)
Definition images_is_file : filesystem :=
  list_to_map
    [ (data, Dir); (images, File [x00]); (labels, Dir);
      (classes, File [x63]) ].

(** The output path is a regular file. *)
Definition output_is_file : filesystem :=
  <[filtered := File [x00]]> export.

(** The directory listed in the order of the map, or in the reverse
    order. *)
Definition same_order (names : list string) : list string := names.
Definition reverse_order (names : list string) : list string := rev names.

(** The labels directory is the "labels" directory of the output
    directory; the images and the class file are elsewhere. *)
Definition pictures : path := [] / "pics".
Definition labels_in_output : filesystem :=
  list_to_map
    [ (data, Dir); (labels, Dir);
      (labels / "ab-f1.txt", File [x11]);
      (pictures, Dir);
      (pictures / "f1.jpg", File [x01; x02]);
      (pictures / "classes.txt", File [x63]) ].

Definition labels_in_output_prepared : filesystem :=
  <[data / "images" := Dir]> labels_in_output.

(** No label file: a file named ".txt", which has no suffix, and a file
    of another kind. *)
Definition not_annotated : filesystem :=
  list_to_map
    [ (data, Dir); (images, Dir); (labels, Dir);
      (classes, File [x63]);
      (images / "f1.jpg", File [x01; x02]);
      (labels / ".txt", File [x11]);
      (labels / "notes.md", File [x15]) ].

Definition not_annotated_prepared : filesystem :=
  <[filtered / "labels" := Dir]>
    (<[filtered / "images" := Dir]> (<[filtered := Dir]> not_annotated)).

(** The export at the paths configured in the script. *)
Definition configured_export : filesystem :=
  list_to_map
    [ ([] / "media", Dir);
      ([] / "media" / "aariyan", Dir);
      ([] / "media" / "aariyan" / "PseudoCode", Dir);
      ([] / "media" / "aariyan" / "PseudoCode" / "AI", Dir);
      ([] / "media" / "aariyan" / "PseudoCode" / "AI" / "Labelling", Dir);
      ([] / "media" / "aariyan" / "PseudoCode" / "AI" / "Labelling" / "canteen_labels", Dir);
      (PurePath.parent SOURCE_IMAGES_FROM_LS_EXPORT, Dir);
      (SOURCE_IMAGES_FROM_LS_EXPORT, Dir);
      (SOURCE_LABELS_FROM_LS_EXPORT, Dir);
      (SOURCE_CLASSES_FILE_FROM_LS_EXPORT, File [x63]);
      (SOURCE_IMAGES_FROM_LS_EXPORT / "frame_00100.jpg", File [x01; x02]);
      (SOURCE_LABELS_FROM_LS_EXPORT / "0a5581f7-frame_00100.txt", File [x11]) ].

(** The output directory is the labels directory, and an image has the
    name of the class file. *)
Definition output_is_labels : filesystem :=
  list_to_map
    [ (data, Dir); (images, Dir); (labels, Dir);
      (classes, File [x63]);
      (images / "classes.jpg", File [x01]) ].

End Example.

Import Example.

(** * Properties *)

(** ** Examples of the string and path operations *)

Example lower_ex : PyStr.lower ".TxT" = ".txt".
Proof. reflexivity. Qed.

Example split_ex1 : PyStr.split "-" "0a5581f7-frame_00100" = ["0a5581f7"; "frame_00100"].
Proof. reflexivity. Qed.

Example split_ex2 : PyStr.split "-" "a--b-" = ["a"; EmptyString; "b"; EmptyString].
Proof. reflexivity. Qed.

Example split_ex3 : PyStr.split "-" EmptyString = [EmptyString].
Proof. reflexivity. Qed.

Example join_ex : PyStr.join "-" ["frame"; "00"; "100"] = "frame-00-100".
Proof. reflexivity. Qed.

Example suffix_ex1 : PurePath.suffix_of_name "0a5581f7-frame_00100.txt" = ".txt".
Proof. reflexivity. Qed.

Example suffix_ex2 : PurePath.suffix_of_name "archive.tar.TXT" = ".TXT".
Proof. reflexivity. Qed.

Example suffix_ex3 : PurePath.suffix_of_name ".txt" = EmptyString.
Proof. reflexivity. Qed.

Example suffix_ex4 : PurePath.suffix_of_name "notes." = EmptyString.
Proof. reflexivity. Qed.

Example stem_ex1 : PurePath.stem_of_name "0a5581f7-frame_00100.txt" = "0a5581f7-frame_00100".
Proof. reflexivity. Qed.

Example stem_ex2 : PurePath.stem_of_name "archive.tar.TXT" = "archive.tar".
Proof. reflexivity. Qed.

Example stem_ex3 : PurePath.stem_of_name ".txt" = ".txt".
Proof. reflexivity. Qed.

(** ** Strings *)

Lemma append_nil_l s : EmptyString +:+ s = s.
Proof. reflexivity. Qed.

Lemma append_cons c s t : String c s +:+ t = String c (s +:+ t).
Proof. reflexivity. Qed.










Lemma after_last_dot_append_jpg b :
  PurePath.after_last_dot (b +:+ ".jpg") = Some "jpg".
Proof.
  induction b as [|c b IH]; [done|].
  rewrite append_cons. simpl. by rewrite IH.
Qed.

Lemma suffix_append_jpg b :
  PurePath.suffix_of_name (b +:+ ".jpg") = ".jpg" ∨
  PurePath.suffix_of_name (b +:+ ".jpg") = EmptyString.
Proof.
  unfold PurePath.suffix_of_name, PurePath.split_suffix.
  destruct b as [|c b]; [by right|].
  rewrite append_cons, after_last_dot_append_jpg. by left.
Qed.

Lemma txt_name_not_jpg nm b :
  PyStr.lower (PurePath.suffix_of_name nm) = ".txt" → nm ≠ b +:+ ".jpg".
Proof.
  intros Htxt ->. by destruct (suffix_append_jpg b) as [H|H]; rewrite H in Htxt.
Qed.

Lemma before_after_last_dot s t :
  PurePath.after_last_dot s = Some t →
  s = PurePath.before_last_dot s +:+ String "."%char t.
Proof.
  induction s as [|c s IH]; [done|]. simpl.
  destruct (PurePath.after_last_dot s) as [t'|].
  - intros [= <-]. rewrite append_cons. by rewrite <- IH.
  - case_decide; [|done]. subst. by intros [= <-].
Qed.

Lemma stem_suffix nm :
  PurePath.stem_of_name nm +:+ PurePath.suffix_of_name nm = nm.
Proof.
  unfold PurePath.stem_of_name, PurePath.suffix_of_name, PurePath.split_suffix.
  assert (Hnil : ∀ s, s +:+ EmptyString = s).
  { intros s. induction s as [|c s IH]; [done|]. by rewrite append_cons, IH. }
  destruct nm as [|c rest]; [done|].
  destruct (PurePath.after_last_dot rest) as [[|c' t]|] eqn:Hd; [apply Hnil| |apply Hnil].
  symmetry. apply before_after_last_dot. simpl. by rewrite Hd.
Qed.



(** ** The file system operations *)

Lemma stat_insert (m : filesystem) t v p :
  t ≠ [] → stat (<[t := v]> m) p = if decide (t = p) then Some v else stat m p.
Proof.
  intros Ht. destruct p as [|n d]; simpl.
  - by rewrite decide_False.
  - by rewrite lookup_insert.
Qed.

Lemma stat_insert_ne (m : filesystem) t v p :
  t ≠ p → stat (<[t := v]> m) p = stat m p.
Proof.
  intros Hne. destruct p as [|n d]; simpl; [done|]. by rewrite lookup_insert_ne.
Qed.

Lemma stat_insert_eq (m : filesystem) t v :
  t ≠ [] → stat (<[t := v]> m) t = Some v.
Proof. intros Ht. rewrite stat_insert by done. by rewrite decide_True. Qed.


Lemma is_dir_stat m p : is_dir m p = true ↔ stat m p = Some Dir.
Proof. unfold is_dir. destruct (stat m p) as [[]|]; naive_solver. Qed.

Lemma is_file_stat m p : is_file m p = true ↔ ∃ data, stat m p = Some (File data).
Proof.
  unfold is_file. destruct (stat m p) as [[|data]|]; split;
    try done; try (by intros [? ?]); eauto.
Qed.

(** Writing a regular file where no directory is leaves the directories
    as they are. *)
Lemma is_dir_insert_file m t data p :
  is_dir m t = false → is_dir (<[t := File data]> m) p = is_dir m p.
Proof.
  intros Ht. destruct (decide (t = p)) as [<-|Hne].
  - rewrite Ht. unfold is_dir. destruct t; [done|].
    by rewrite stat_insert_eq.
  - unfold is_dir. by rewrite stat_insert_ne.
Qed.

(** *** [shutil.copy2] *)

Lemma copy2_inr src dst m m' t :
  OS.copy2 src dst m = inr (m', t) ↔
  t = OS.copy2_target src dst m ∧ t ≠ src ∧ is_dir m t = false ∧
  is_dir m (PurePath.parent t) = true ∧
  ∃ data, stat m src = Some (File data) ∧ m' = <[t := File data]> m.
Proof.
  unfold OS.copy2, OS.copyfile, OS.samefile, OS.read_bytes, OS.write_bytes,
    exists_, is_dir.
  generalize (OS.copy2_target src dst m). intros t'.
  destruct (stat m src) as [[|data]|] eqn:Hsrc; simpl.
  - rewrite andb_true_r. case_bool_decide; split; try done.
    all: by intros (_ & _ & _ & _ & ? & ? & _).
  - rewrite andb_true_r. case_bool_decide as Heq.
    { split; [done|]. intros (-> & ? & _). done. }
    destruct (stat m t') as [[|data']|] eqn:Ht;
      destruct (stat m (PurePath.parent t')) as [[|data'']|] eqn:Hp;
      (split; [intros [= <- <-] | intros (-> & ? & ? & ? & ? & [= <-] & ->)]);
      rewrite ?Ht, ?Hp in *; try done; eauto 10.
  - rewrite andb_false_r. split; [done|]. by intros (_ & _ & _ & _ & ? & ? & _).
Qed.

Lemma copy2_inl src dst m e :
  OS.copy2 src dst m = inl e → is_Exception e = true.
Proof.
  unfold OS.copy2, OS.copyfile, OS.read_bytes, OS.write_bytes.
  repeat case_match; naive_solver.
Qed.

Lemma copy2_target_nonroot src dst m :
  dst ≠ [] → OS.copy2_target src dst m ≠ [].
Proof. unfold OS.copy2_target. by case_match. Qed.

(** *** [Path.mkdir] *)

Lemma dirs_added_refl m : dirs_added m m.
Proof. intros p. by left. Qed.

Lemma dirs_added_trans m1 m2 m3 :
  dirs_added m1 m2 → dirs_added m2 m3 → dirs_added m1 m3.
Proof.
  intros H12 H23 p. destruct (H12 p) as [H|[H H']], (H23 p) as [G|[G G']];
    naive_solver congruence.
Qed.

Lemma os_mkdir_inr p m m' :
  OS.mkdir p m = inr m' → stat m p = None ∧ m' = <[p := Dir]> m ∧ p ≠ [].
Proof.
  unfold OS.mkdir. destruct p as [|n d]; [done|].
  repeat case_match; naive_solver.
Qed.

Lemma os_mkdir_dirs_added p m m' :
  OS.mkdir p m = inr m' → dirs_added m m' ∧ is_dir m' p = true.
Proof.
  intros (Hp & -> & Hne)%os_mkdir_inr. split.
  - intros q. rewrite stat_insert by done. case_decide; naive_solver.
  - unfold is_dir. by rewrite stat_insert_eq.
Qed.

Lemma mkdir_exist_ok_inr p m m' :
  OS.mkdir_exist_ok p m = inr m' → dirs_added m m' ∧ is_dir m' p = true.
Proof.
  unfold OS.mkdir_exist_ok. destruct (OS.mkdir p m) as [e|m''] eqn:Hmk.
  - repeat case_match; try done. intros [= <-]. split; [apply dirs_added_refl|done].
  - intros [= <-]. by apply os_mkdir_dirs_added.
Qed.

Lemma mkdir_parents_inr p m m' :
  OS.mkdir_parents p m = inr m' → dirs_added m m' ∧ is_dir m' p = true.
Proof.
  revert m m'. induction p as [|n d IH]; intros m m'; simpl.
  - destruct (OS.mkdir [] m) as [e|m''] eqn:Hmk.
    + repeat case_match; try done. intros [= <-]. split; [apply dirs_added_refl|done].
    + intros [= <-]. by apply os_mkdir_dirs_added.
  - destruct (OS.mkdir (n :: d) m) as [e|m''] eqn:Hmk.
    + destruct (is_FileNotFoundError e).
      * destruct (OS.mkdir_parents d m) as [e'|m1] eqn:Hpar; [done|].
        intros [H1 H2]%mkdir_exist_ok_inr. apply IH in Hpar as [H3 _].
        split; [by eapply dirs_added_trans|done].
      * case_match; [|done]. intros [= <-]. split; [apply dirs_added_refl|done].
    + intros [= <-]. by apply os_mkdir_dirs_added.
Qed.

Lemma mkdir_parents_existing p m :
  is_dir m p = true → OS.mkdir_parents p m = inr m.
Proof.
  intros Hd. destruct p as [|n d]; simpl.
  - done.
  - unfold OS.mkdir. apply is_dir_stat in Hd. rewrite Hd. simpl.
    apply is_dir_stat in Hd. by rewrite Hd.
Qed.

Lemma mkdir_parents_inl p m e :
  OS.mkdir_parents p m = inl e → is_Exception e = true.
Proof.
  assert (Hmk : ∀ p m e, OS.mkdir p m = inl e → is_Exception e = true).
  { intros p' m0 e0. unfold OS.mkdir. repeat case_match; naive_solver. }
  assert (Hok : ∀ p m e, OS.mkdir_exist_ok p m = inl e → is_Exception e = true).
  { intros p' m0 e0. unfold OS.mkdir_exist_ok.
    destruct (OS.mkdir p' m0) eqn:H0; [|done]. apply Hmk in H0.
    repeat case_match; naive_solver. }
  revert m e. induction p as [|n d IH]; intros m e; simpl.
  - destruct (OS.mkdir [] m) eqn:H0; [|done]. apply Hmk in H0.
    repeat case_match; naive_solver.
  - destruct (OS.mkdir (n :: d) m) eqn:H0; [|done]. apply Hmk in H0.
    destruct (is_FileNotFoundError e0).
    + destruct (OS.mkdir_parents d m) eqn:H1; [naive_solver|]. apply Hok.
    + case_match; naive_solver.
Qed.

Lemma dirs_added_is_file m m' p :
  dirs_added m m' → is_file m' p = is_file m p.
Proof.
  intros H. unfold is_file. destruct (H p) as [->|[-> ->]]; done.
Qed.

Lemma dirs_added_is_dir m m' p :
  dirs_added m m' → is_dir m p = true → is_dir m' p = true.
Proof.
  intros H. unfold is_dir. destruct (H p) as [->|[-> ->]]; done.
Qed.

Lemma dirs_added_file m m' p data :
  dirs_added m m' → stat m' p = Some (File data) ↔ stat m p = Some (File data).
Proof. intros H. destruct (H p) as [->|[-> ->]]; done. Qed.

(** ** One iteration and the loop *)

Arguments OS.mkdir_parents : simpl never.
Arguments OS.copy2 : simpl never.

Lemma process_label_try_eq imgs out l k s :
  process_label_try imgs out l k s =
    if is_file (fs s) (imgs / image_filename l) then
      match OS.copy2 (imgs / image_filename l) (image_dst out l) (fs s) with
      | inl e => (Raise e, s)
      | inr (m1, t1) =>
          match OS.copy2 l (label_dst out l) m1 with
          | inl e => (Raise e, State m1 (trace s ++ [Copied (imgs / image_filename l) t1]))
          | inr (m2, t2) =>
              (Ok (k + 1),
               State m2 (trace s ++ [Copied (imgs / image_filename l) t1; Copied l t2]))
          end
      end
    else
      (Ok k, State (fs s)
               (trace s ++ [Logged WARNING (SkippingLabel (PurePath.name l) (image_filename l))])).
Proof.
  unfold process_label_try, bind, query, shutil_copy2, logging_warning, emit, ret.
  simpl. destruct (is_file (fs s) _); [|done].
  destruct (OS.copy2 _ _ (fs s)) as [e|[m1 t1]]; [done|]. simpl.
  destruct (OS.copy2 l _ m1) as [e|[m2 t2]]; [done|]. simpl.
  by rewrite <- app_assoc.
Qed.

Lemma process_label_eq imgs out l k s :
  process_label imgs out l k s =
    if is_file (fs s) (imgs / image_filename l) then
      match OS.copy2 (imgs / image_filename l) (image_dst out l) (fs s) with
      | inl e =>
          (Ok k, State (fs s)
                   (trace s ++ [Logged ERROR (ErrorProcessingLabel (PurePath.name l) e)]))
      | inr (m1, t1) =>
          match OS.copy2 l (label_dst out l) m1 with
          | inl e =>
              (Ok k, State m1
                       (trace s ++ [Copied (imgs / image_filename l) t1;
                                    Logged ERROR (ErrorProcessingLabel (PurePath.name l) e)]))
          | inr (m2, t2) =>
              (Ok (k + 1),
               State m2 (trace s ++ [Copied (imgs / image_filename l) t1; Copied l t2]))
          end
      end
    else
      (Ok k, State (fs s)
               (trace s ++ [Logged WARNING (SkippingLabel (PurePath.name l) (image_filename l))])).
Proof.
  unfold process_label, try_except. rewrite process_label_try_eq.
  destruct (is_file (fs s) _); [|done].
  destruct (OS.copy2 _ _ (fs s)) as [e|[m1 t1]] eqn:H1.
  - rewrite (copy2_inl _ _ _ _ H1).
    by unfold bind, logging_error, emit, ret.
  - destruct (OS.copy2 l _ m1) as [e|[m2 t2]] eqn:H2; [|done].
    rewrite (copy2_inl _ _ _ _ H2).
    unfold bind, logging_error, emit, ret. simpl. by rewrite <- app_assoc.
Qed.

(** The loop never raises. *)
Lemma process_label_ok imgs out l k s :
  ∃ k' s', process_label imgs out l k s = (Ok k', s').
Proof. rewrite process_label_eq. repeat case_match; eauto. Qed.

Lemma process_labels_ok imgs out ls k s :
  ∃ k' s', process_labels imgs out ls k s = (Ok k', s').
Proof.
  revert k s. induction ls as [|l ls IH]; intros k s; simpl.
  - by eexists _, _.
  - unfold bind. destruct (process_label_ok imgs out l k s) as (k' & s' & ->).
    apply IH.
Qed.

(** ** The run, phase by phase *)

Section Phases.
Variable order : list string → list string.
Variables imgs lbls out cls : path.

Lemma run_invalid m t :
  sources_valid m imgs lbls cls = false →
  filter_annotated_data order imgs lbls out cls (State m t) =
    (Raise (SystemExit 1),
     State m (t ++ [Logged ERROR (SourcesNotFound (exists_ m imgs) (exists_ m lbls)
                                     (exists_ m cls))])).
Proof.
  unfold sources_valid, filter_annotated_data. intros Hv.
  unfold bind at 1 2 3. simpl. rewrite Hv. simpl. done.
Qed.

Lemma run_mkdir_images_fails m t e :
  sources_valid m imgs lbls cls = true →
  OS.mkdir_parents (out / "images") m = inl e →
  filter_annotated_data order imgs lbls out cls (State m t) = (Raise e, State m t).
Proof.
  unfold sources_valid, filter_annotated_data. intros Hv Hmk.
  unfold bind at 1 2 3. simpl. rewrite Hv. simpl.
  unfold bind at 1. unfold Path_mkdir, update. simpl. by rewrite Hmk.
Qed.

Lemma run_mkdir_labels_fails m t m1 e :
  sources_valid m imgs lbls cls = true →
  OS.mkdir_parents (out / "images") m = inr m1 →
  OS.mkdir_parents (out / "labels") m1 = inl e →
  filter_annotated_data order imgs lbls out cls (State m t) = (Raise e, State m1 t).
Proof.
  unfold sources_valid, filter_annotated_data. intros Hv Hmk1 Hmk2.
  unfold bind at 1 2 3. simpl. rewrite Hv. simpl.
  unfold bind at 1. unfold Path_mkdir, update. simpl. rewrite Hmk1.
  unfold bind at 1. simpl. by rewrite Hmk2.
Qed.

Lemma output_dirs_inr m ma :
  output_dirs out m = inr ma →
  dirs_added m ma ∧ is_dir ma (out / "images") = true ∧ is_dir ma (out / "labels") = true.
Proof.
  unfold output_dirs. destruct (OS.mkdir_parents _ m) as [e|m1] eqn:H1; [done|].
  intros H2. apply mkdir_parents_inr in H1 as [H1 H1'], H2 as [H2 H2'].
  split_and!; [by eapply dirs_added_trans| |done].
  by eapply dirs_added_is_dir.
Qed.

Lemma run_valid m t ma :
  sources_valid m imgs lbls cls = true →
  output_dirs out m = inr ma →
  ∃ k sL,
    process_labels imgs out (label_files order lbls ma) 0
      (State ma (t ++ [Logged INFO (CreatedOutputDirectory out);
                       Logged INFO StartingFiltering])) = (Ok k, sL) ∧
    filter_annotated_data order imgs lbls out cls (State m t) =
      match OS.copy2 cls (out / PurePath.name cls) (fs sL) with
      | inl e => (Raise e, sL)
      | inr (m', tc) =>
          (Ok (), State m' (trace sL ++ [Copied cls tc;
                                          Logged INFO (FilteringComplete k);
                                          Logged INFO (FilteredDataAvailable out)]))
      end.
Proof.
  intros Hv Hout.
  destruct (process_labels_ok imgs out (label_files order lbls ma) 0
    (State ma (t ++ [Logged INFO (CreatedOutputDirectory out);
                     Logged INFO StartingFiltering]))) as (k & sL & Hloop).
  exists k, sL. split; [done|].
  pose proof (output_dirs_inr _ _ Hout) as (Hadd & _ & _).
  unfold output_dirs in Hout.
  destruct (OS.mkdir_parents (out / "images") m) as [e|m1] eqn:Hmk1; [done|].
  unfold sources_valid in Hv. unfold filter_annotated_data.
  unfold bind at 1 2 3. simpl. rewrite Hv. simpl.
  unfold bind at 1. unfold Path_mkdir, update. simpl. rewrite Hmk1.
  unfold bind at 1. simpl. rewrite Hout.
  unfold bind at 1. simpl.
  unfold bind at 1. unfold iterdir. simpl.
  apply andb_prop in Hv as [[_ Hl]%andb_prop _].
  apply (dirs_added_is_dir _ _ _ Hadd), is_dir_stat in Hl. rewrite Hl.
  unfold bind at 1. simpl.
  unfold bind at 1. simpl.
  unfold bind at 1. rewrite <- app_assoc. simpl.
  unfold label_files in Hloop. rewrite Hloop.
  unfold bind at 1. unfold shutil_copy2.
  destruct (OS.copy2 cls _ (fs sL)) as [e|[m' tc]]; [done|].
  unfold bind, logging_info, emit. simpl. by rewrite <- !app_assoc.
Qed.
End Phases.

(** ** Where the loop reads and writes *)

Lemma jpg_not_txt n : jpg_name n → txt_name n → False.
Proof. intros [b ->] Ht. by eapply txt_name_not_jpg. Qed.

Lemma images_not_jpg : ¬ jpg_name "images".
Proof.
  intros [b Hb]. pose proof (after_last_dot_append_jpg b) as H.
  by rewrite <- Hb in H.
Qed.

Lemma labels_not_txt : ¬ txt_name "labels".
Proof. by unfold txt_name. Qed.

Lemma image_filename_jpg l : jpg_name (image_filename l).
Proof. by eexists. Qed.

Ltac path_len H :=
  exfalso; apply (f_equal List.length) in H; unfold joinpath in H; simpl in H; lia.

Ltac path_inj :=
  unfold joinpath in *;
  repeat match goal with
         | _ => progress simplify_eq
         | H : ?d = _ :: ?d |- _ => path_len H
         | H : ?d = _ :: _ :: ?d |- _ => path_len H
         | H : _ :: ?d = ?d |- _ => path_len H
         | H : _ :: _ :: ?d = ?d |- _ => path_len H
         end.

Lemma loop_copy_source_like imgs lbls out src t :
  loop_copy imgs lbls out src t → source_like imgs lbls src.
Proof. intros [(n & ? & -> & _)|(x & ? & -> & _)]; [left|right]; eauto. Qed.

(** A target of the loop that is a path the loop reads is the source of
    that very copy (which [shutil] then refuses). *)
Lemma loop_copy_target_source imgs lbls out src t :
  loop_copy imgs lbls out src t → source_like imgs lbls t → t = src.
Proof.
  intros [(n & Hn & -> & Ht)|(x & Hx & -> & Ht)] [(n' & Hn' & Hp)|(x' & Hx' & Hp)];
    destruct Ht as [->| ->]; path_inj; try done;
    exfalso; eauto using jpg_not_txt.
Qed.

(** The target tells the source. *)
Lemma loop_copy_functional imgs lbls out src src' t :
  loop_copy imgs lbls out src t → loop_copy imgs lbls out src' t → src = src'.
Proof.
  intros [(n & Hn & -> & Ht)|(x & Hx & -> & Ht)] [(n' & Hn' & -> & Ht')|(x' & Hx' & -> & Ht')];
    destruct Ht as [->| ->]; destruct Ht' as [Ht'|Ht']; path_inj; try done.
Qed.

(** The class file goes elsewhere. *)
Lemma loop_copy_not_class imgs lbls out src t c :
  loop_copy imgs lbls out src t → t ≠ out / c ∧ t ≠ out / c / c.
Proof.
  intros [(n & Hn & -> & Ht)|(x & Hx & -> & Ht)]; destruct Ht as [->| ->];
    split; intros H; path_inj;
    eauto using images_not_jpg, labels_not_txt.
Qed.

Lemma loop_copy_nonroot imgs lbls out src t :
  loop_copy imgs lbls out src t → t ≠ [].
Proof. intros [(n & Hn & -> & Ht)|(x & Hx & -> & Ht)]; by destruct Ht as [->| ->]. Qed.

Lemma copy2_target_cases src dst m :
  OS.copy2_target src dst m = dst ∨ OS.copy2_target src dst m = dst / PurePath.name src.
Proof. unfold OS.copy2_target. case_match; eauto. Qed.

Lemma image_copy_shape imgs lbls out l m :
  loop_copy imgs lbls out (imgs / image_filename l)
    (OS.copy2_target (imgs / image_filename l) (image_dst out l) m).
Proof.
  left. exists (image_filename l). split_and!; [apply image_filename_jpg|done|].
  apply copy2_target_cases.
Qed.

Lemma label_copy_shape imgs lbls out x m :
  txt_name x →
  loop_copy imgs lbls out (lbls / x) (OS.copy2_target (lbls / x) (label_dst out (lbls / x)) m).
Proof.
  intros Hx. right. exists x. split_and!; [done..|]. apply copy2_target_cases.
Qed.

(** ** The loop as a sequence of records and copies *)

Section LoopRun.
Variables imgs lbls out : path.

Lemma loop_run_trans s1 s2 s3 :
  loop_run imgs lbls out s1 s2 → loop_run imgs lbls out s2 s3 →
  loop_run imgs lbls out s1 s3.
Proof. intros H12 H23. induction H23; eauto using loop_run. Qed.

Lemma copy_write_is_dir src t m m' p :
  copy_write imgs lbls out src t m m' → is_dir m' p = is_dir m p.
Proof. intros (_ & _ & Hd & data & _ & ->). by apply is_dir_insert_file. Qed.

Lemma copy_write_source_like src t m m' p :
  copy_write imgs lbls out src t m m' → source_like imgs lbls p →
  stat m' p = stat m p.
Proof.
  intros (Hc & Hne & _ & data & _ & ->) Hp. apply stat_insert_ne.
  intros <-. apply Hne. by eapply loop_copy_target_source.
Qed.

Lemma copy_write_other src t m m' p :
  copy_write imgs lbls out src t m m' → p ≠ t → stat m' p = stat m p.
Proof. intros (_ & _ & _ & data & _ & ->) Hp. by apply stat_insert_ne. Qed.

Lemma copy_write_target src t m m' :
  copy_write imgs lbls out src t m m' → stat m' t = stat m src.
Proof.
  intros (Hc & _ & _ & data & -> & ->). apply stat_insert_eq.
  by eapply loop_copy_nonroot.
Qed.

(** The file system after the loop, read off the trace. *)
Lemma loop_run_facts s s' :
  loop_run imgs lbls out s s' →
  ∃ new : list event, trace s' = (trace s ++ new)%list ∧
    (∀ p, is_dir (fs s') p = is_dir (fs s) p) ∧
    (∀ p, source_like imgs lbls p → stat (fs s') p = stat (fs s) p) ∧
    (∀ src t, Copied src t ∈ new →
       loop_copy imgs lbls out src t ∧ t ≠ src ∧
       ∃ data, stat (fs s) src = Some (File data) ∧ stat (fs s') t = Some (File data)) ∧
    (∀ p, stat (fs s') p = stat (fs s) p ∨ ∃ src, Copied src p ∈ new).
Proof.
  induction 1 as [|s' lvl msg Hrun (new & Htr & HA & HB & HC & HD)
                  |s' src t m' Hrun (new & Htr & HA & HB & HC & HD) Hw].
  - exists []. rewrite app_nil_r. split_and!; try done.
    + intros ?? []%elem_of_nil.
    + by left.
  - exists (new ++ [Logged lvl msg]). simpl. rewrite Htr, app_assoc.
    split_and!; try done.
    + intros src t [Hin|Hin%list_elem_of_singleton]%elem_of_app; [eauto|done].
    + intros p. destruct (HD p) as [?|[src ?]]; [by left|right].
      exists src. apply elem_of_app. by left.
  - exists (new ++ [Copied src t]). simpl. rewrite Htr, app_assoc.
    pose proof Hw as (Hc & Hne & Hd & data & Hsrc & Hm').
    split_and!; try done.
    + intros p. rewrite (copy_write_is_dir _ _ _ _ _ Hw). apply HA.
    + intros p Hp. rewrite (copy_write_source_like _ _ _ _ _ Hw Hp). by apply HB.
    + assert (Hsrc0 : stat (fs s) src = Some (File data)).
      { rewrite <- Hsrc. symmetry. apply HB. by eapply loop_copy_source_like. }
      intros src' t' [Hin|[= -> ->]%list_elem_of_singleton]%elem_of_app.
      * destruct (HC _ _ Hin) as (Hc' & Hne' & data' & Hsrc' & Ht').
        split_and!; [done..|]. exists data'. split; [done|].
        destruct (decide (t' = t)) as [->|Hneq].
        -- rewrite (loop_copy_functional _ _ _ _ _ _ Hc' Hc) in Hsrc'.
           rewrite (copy_write_target _ _ _ _ Hw). congruence.
        -- by rewrite (copy_write_other _ _ _ _ _ Hw Hneq).
      * split_and!; [done..|]. exists data. split; [done|].
        rewrite (copy_write_target _ _ _ _ Hw). done.
    + intros p. destruct (decide (p = t)) as [->|Hneq].
      * right. exists src. apply elem_of_app. right. by apply list_elem_of_singleton.
      * rewrite (copy_write_other _ _ _ _ _ Hw Hneq).
        destruct (HD p) as [?|[src' ?]]; [by left|right].
        exists src'. apply elem_of_app. by left.
Qed.

End LoopRun.

(** ** Iterations *)

Lemma process_label_iteration imgs out l k s k' s' :
  process_label imgs out l k s = (Ok k', s') → iteration imgs out l k s k' s'.
Proof.
  rewrite process_label_eq.
  destruct (is_file _ _) eqn:Hf.
  - destruct (OS.copy2 _ _ (fs s)) as [e|[m1 t1]] eqn:H1.
    + intros [= <- <-]. by constructor.
    + destruct (OS.copy2 l _ m1) as [e|[m2 t2]] eqn:H2; intros [= <- <-].
      * by eapply iteration_label_error.
      * by eapply iteration_copied.
  - intros [= <- <-]. by constructor.
Qed.

Section Loop.
Variables imgs lbls out : path.

Lemma image_copy_write l m m' t :
  OS.copy2 (imgs / image_filename l) (image_dst out l) m = inr (m', t) →
  copy_write imgs lbls out (imgs / image_filename l) t m m'.
Proof.
  intros (-> & Hne & Hd & _ & Hdata)%copy2_inr.
  split_and!; [apply image_copy_shape|done..].
Qed.

Lemma label_copy_write l m m' t :
  is_label lbls l →
  OS.copy2 l (label_dst out l) m = inr (m', t) →
  copy_write imgs lbls out l t m m'.
Proof.
  intros (x & Hx & ->) (-> & Hne & Hd & _ & Hdata)%copy2_inr.
  split_and!; [by apply label_copy_shape|done..].
Qed.

Lemma iteration_loop_run l k s k' s' :
  is_label lbls l → iteration imgs out l k s k' s' → loop_run imgs lbls out s s'.
Proof.
  intros Hl [Hf|e Hf H1|m1 t1 e Hf H1 H2|m1 t1 m2 t2 Hf H1 H2].
  - apply loop_run_log, loop_run_refl.
  - apply loop_run_log, loop_run_refl.
  - apply image_copy_write in H1.
    change (trace s ++ [?a; ?b]) with (trace s ++ [a] ++ [b]). rewrite app_assoc.
    apply (loop_run_log _ _ _ _ (State m1 (trace s ++ [_]))).
    apply (loop_run_copy _ _ _ _ s); [apply loop_run_refl|done].
  - apply image_copy_write in H1. apply (label_copy_write _ _ _ _ Hl) in H2.
    change (trace s ++ [?a; ?b]) with (trace s ++ [a] ++ [b]). rewrite app_assoc.
    apply (loop_run_copy _ _ _ _ (State m1 (trace s ++ [_]))); [|done].
    apply (loop_run_copy _ _ _ _ s); [apply loop_run_refl|done].
Qed.

(** An invariant of the iterations, which may mention the labels
    already processed, is an invariant of the loop. *)
Lemma process_labels_invariant (I : list path → nat → state → Prop) ls :
  NoDup ls → Forall (is_label lbls) ls →
  (∀ done l k s k' s',
      is_label lbls l → l ∉ done → I done k s →
      iteration imgs out l k s k' s' → I (done ++ [l]) k' s') →
  ∀ done k s k' s',
    (∀ l, l ∈ ls → l ∉ done) → I done k s →
    process_labels imgs out ls k s = (Ok k', s') → I (done ++ ls) k' s'.
Proof.
  intros Hnd Hls Hstep. induction Hls as [|l ls Hl Hls IH];
    intros done k s k' s' Hfresh HI; simpl.
  - intros [= <- <-]. by rewrite app_nil_r.
  - destruct (process_label_ok imgs out l k s) as (k1 & s1 & H1).
    unfold bind. rewrite H1. apply process_label_iteration in H1.
    apply NoDup_cons in Hnd as [Hnotin Hnd].
    replace (done ++ l :: ls) with ((done ++ [l]) ++ ls) by by rewrite <- app_assoc.
    apply IH; [done| |].
    + intros l' Hl' [?|Heq%list_elem_of_singleton]%elem_of_app; [|by subst].
      eapply Hfresh; [|done]. by right.
    + eapply Hstep; [done| |done..]. apply Hfresh. by left.
Qed.

Lemma process_labels_loop_run ls k s k' s' :
  NoDup ls → Forall (is_label lbls) ls →
  process_labels imgs out ls k s = (Ok k', s') → loop_run imgs lbls out s s'.
Proof.
  intros Hnd Hls Hrun.
  apply (process_labels_invariant (λ _ _ s', loop_run imgs lbls out s s') ls Hnd Hls)
    with (done := []) (k := k) (s := s) (k' := k'); [| |apply loop_run_refl|done].
  - intros done l k0 s0 k1 s1 Hl _ H0 Hit.
    eapply loop_run_trans; [done|]. by eapply iteration_loop_run.
  - intros ?? []%elem_of_nil.
Qed.
End Loop.

(** ** The events of one iteration *)

Lemma copied_from_spec src tr :
  copied_from src tr = true ↔ ∃ t, Copied src t ∈ tr.
Proof.
  unfold copied_from. rewrite existsb_exists. split.
  - intros ([lvl msg|s t] & Hin%list_elem_of_In & Hev); [done|].
    apply bool_decide_eq_true in Hev as ->. eauto.
  - intros (t & Hin%list_elem_of_In). exists (Copied src t).
    split; [done|]. by apply bool_decide_eq_true.
Qed.

Lemma copied_from_app src tr1 tr2 :
  copied_from src (tr1 ++ tr2) = copied_from src tr1 || copied_from src tr2.
Proof. apply existsb_app. Qed.

Lemma copy2_agree src dst m m' m1 t :
  (∀ p, is_dir m p = is_dir m' p) → stat m src = stat m' src →
  OS.copy2 src dst m = inr (m1, t) → ∃ m1', OS.copy2 src dst m' = inr (m1', t).
Proof.
  intros Hd Hs (Ht & Hne & Hdt & Hdp & data & Hsrc & _)%copy2_inr.
  exists (<[t := File data]> m'). apply copy2_inr.
  split_and!; try done.
  - rewrite Ht. unfold OS.copy2_target. by rewrite Hd.
  - by rewrite <- Hd.
  - by rewrite <- Hd.
  - exists data. by rewrite <- Hs.
Qed.

Section Iteration.
Variables imgs lbls out : path.

Lemma label_source_like l : is_label lbls l → source_like imgs lbls l.
Proof. intros (x & Hx & ->). right. eauto. Qed.

Lemma image_source_like l : source_like imgs lbls (imgs / image_filename l).
Proof. left. eexists. split; [apply image_filename_jpg|done]. Qed.

Lemma label_not_image l l' : is_label lbls l → l ≠ imgs / image_filename l'.
Proof.
  intros (x & Hx & ->) H. unfold joinpath in H. simplify_eq.
  eapply jpg_not_txt; [|done]. apply image_filename_jpg.
Qed.

(** What one iteration adds to the trace, read against a file system
    [m0] that has the same directories and the same sources. *)
Lemma iteration_events m0 l k s k' s' :
  is_label lbls l →
  (∀ p, is_dir (fs s) p = is_dir m0 p) →
  (∀ p, source_like imgs lbls p → stat (fs s) p = stat m0 p) →
  iteration imgs out l k s k' s' →
  ∃ evs, trace s' = trace s ++ evs ∧
    (∀ src t, Copied src t ∈ evs →
       src = imgs / image_filename l ∨
       (src = l ∧ ∃ t1, Copied (imgs / image_filename l) t1 ∈ evs)) ∧
    ((is_file m0 (imgs / image_filename l) = false ∧
      Logged WARNING (SkippingLabel (PurePath.name l) (image_filename l)) ∈ evs) ∨
     (is_file m0 (imgs / image_filename l) = true ∧
      ∃ e, Logged ERROR (ErrorProcessingLabel (PurePath.name l) e) ∈ evs) ∨
     (is_file m0 (imgs / image_filename l) = true ∧
      ∃ t1 t2, Copied (imgs / image_filename l) t1 ∈ evs ∧ Copied l t2 ∈ evs)) ∧
    (∀ m1 t1,
       OS.copy2 (imgs / image_filename l) (image_dst out l) m0 = inr (m1, t1) →
       Copied (imgs / image_filename l) t1 ∈ evs ∧
       ∀ m2 t2, OS.copy2 l (label_dst out l) m0 = inr (m2, t2) → Copied l t2 ∈ evs) ∧
    k' = k + (if copied_from l evs then 1 else 0).
Proof.
  intros Hl HA HB Hit.
  assert (Himg : ∀ m1 t1,
    OS.copy2 (imgs / image_filename l) (image_dst out l) m0 = inr (m1, t1) →
    ∃ m1', OS.copy2 (imgs / image_filename l) (image_dst out l) (fs s) = inr (m1', t1)).
  { intros m1 t1 H. eapply copy2_agree; [| |done]; [done|].
    symmetry. apply HB, image_source_like. }
  assert (Hlbl : ∀ ma ta m2 t2,
    OS.copy2 (imgs / image_filename l) (image_dst out l) (fs s) = inr (ma, ta) →
    OS.copy2 l (label_dst out l) m0 = inr (m2, t2) →
    ∃ m2', OS.copy2 l (label_dst out l) ma = inr (m2', t2)).
  { intros ma ta m2 t2 H1 H2. apply (image_copy_write imgs lbls out) in H1.
    eapply copy2_agree; [| |done].
    - intros p. by rewrite (copy_write_is_dir _ _ _ _ _ _ _ _ H1).
    - rewrite (copy_write_source_like _ _ _ _ _ _ _ _ H1 (label_source_like _ Hl)).
      symmetry. by apply HB, label_source_like. }
  assert (Hfile : is_file (fs s) (imgs / image_filename l) = true →
                  is_file m0 (imgs / image_filename l) = true).
  { unfold is_file. by rewrite HB by apply image_source_like. }
  assert (Hne : bool_decide (imgs / image_filename l = l) = false).
  { apply bool_decide_eq_false_2. intros H. by eapply label_not_image. }
  destruct Hit as [Hf|e Hf H1|m1 t1 e Hf H1 H2|m1 t1 m2 t2 Hf H1 H2]; simpl;
    eexists; (split; [done|]); split_and!.
  - by intros ?? [=]%list_elem_of_singleton.
  - left. split; [|by apply list_elem_of_singleton].
    unfold is_file in *. by rewrite <- HB by apply image_source_like.
  - intros m1 t1 (m1' & H1)%Himg. apply copy2_inr in H1 as (_ & _ & _ & _ & d & Hd & _).
    unfold is_file in Hf. by rewrite Hd in Hf.
  - simpl. lia.
  - by intros ?? [=]%list_elem_of_singleton.
  - right; left. split; [by apply Hfile|]. exists e. by apply list_elem_of_singleton.
  - intros m1 t1 (m1' & H1')%Himg. congruence.
  - simpl. lia.
  - intros src t [[= -> ->]|[=]%list_elem_of_singleton]%elem_of_cons. by left.
  - right; left. split; [by apply Hfile|].
    exists e. apply elem_of_cons. right. by apply list_elem_of_singleton.
  - intros m1' t1' (m1'' & H1')%Himg. rewrite H1 in H1'. injection H1' as -> ->.
    split; [by left|]. intros m2 t2 (m2' & H2')%(Hlbl _ _ _ _ H1). congruence.
  - simpl. rewrite Hne. simpl. lia.
  - intros src t [[= -> ->]|[= -> ->]%list_elem_of_singleton]%elem_of_cons; [by left|].
    right. split; [done|]. exists t1. by left.
  - right; right. split; [by apply Hfile|].
    exists t1, t2. split; [by left|]. right. by left.
  - intros m1' t1' (m1'' & H1')%Himg. rewrite H1 in H1'. injection H1' as -> ->.
    split; [by left|]. intros m2' t2' (m2'' & H2')%(Hlbl _ _ _ _ H1).
    rewrite H2 in H2'. injection H2' as -> ->. right. by left.
  - simpl. rewrite Hne. simpl. rewrite bool_decide_eq_true_2 by done. done.
Qed.

End Iteration.

(** ** What the loop has done *)

Lemma filter_ext_elem {A} (P1 P2 : A → Prop)
    `{!∀ x, Decision (P1 x), !∀ x, Decision (P2 x)} (l : list A) :
  (∀ x, x ∈ l → P1 x ↔ P2 x) → filter P1 l = filter P2 l.
Proof.
  induction l as [|a l IH]; intros Hiff; [done|].
  rewrite !filter_cons.
  rewrite IH by (intros x Hx; apply Hiff; by right).
  apply decide_ext, Hiff. by left.
Qed.

Section Summary.
Variables imgs lbls out : path.

Lemma labels_inv_step sa k0 done l k s k' s' :
  Forall (is_label lbls) done →
  is_label lbls l → l ∉ done → labels_inv imgs lbls out sa k0 done k s →
  iteration imgs out l k s k' s' → labels_inv imgs lbls out sa k0 (done ++ [l]) k' s'.
Proof.
  intros Hdone Hl Hfresh (Hrun & new & Htr & Hattr & Hlog & Hall & Hk) Hit.
  destruct (loop_run_facts _ _ _ _ _ Hrun) as (new0 & Htr0 & HA & HB & _).
  destruct (iteration_events imgs lbls out (fs sa) l k s k' s' Hl HA HB Hit)
    as (evs & Htr' & Hev1 & Hev2 & Hev3 & Hk').
  split; [eapply loop_run_trans; [done|]; by eapply iteration_loop_run|].
  exists (new ++ evs). rewrite Htr', Htr, app_assoc. split_and!; [done|..].
  - intros src t [Hin|Hin]%elem_of_app.
    + destruct (Hattr _ _ Hin) as (l0 & Hl0 & [->|[-> [t1 Ht1]]]);
        exists l0; (split; [apply elem_of_app; by left|]); [by left|right].
      split; [done|]. exists t1. apply elem_of_app. by left.
    + exists l. split; [apply elem_of_app; right; by apply list_elem_of_singleton|].
      destruct (Hev1 _ _ Hin) as [->|[-> [t1 Ht1]]]; [by left|right].
      split; [done|]. exists t1. apply elem_of_app. by right.
  - intros l0 [Hin|Hin%list_elem_of_singleton]%elem_of_app.
    + destruct (Hlog _ Hin) as [[? ?]|[[? [e ?]]|(? & t1 & t2 & ? & ?)]].
      * left. split; [done|]. apply elem_of_app. by left.
      * right; left. split; [done|]. exists e. apply elem_of_app. by left.
      * right; right. split; [done|]. exists t1, t2. split; apply elem_of_app; by left.
    + subst l0. destruct Hev2 as [[? ?]|[[? [e ?]]|(? & t1 & t2 & ? & ?)]].
      * left. split; [done|]. apply elem_of_app. by right.
      * right; left. split; [done|]. exists e. apply elem_of_app. by right.
      * right; right. split; [done|]. exists t1, t2. split; apply elem_of_app; by right.
  - intros l0 [Hin|Hin%list_elem_of_singleton]%elem_of_app m1 t1 H1.
    + destruct (Hall _ Hin _ _ H1) as [? H2]. split; [apply elem_of_app; by left|].
      intros m2 t2 H2'. apply elem_of_app. left. by eapply H2.
    + subst l0. destruct (Hev3 _ _ H1) as [? H2]. split; [apply elem_of_app; by right|].
      intros m2 t2 H2'. apply elem_of_app. right. by eapply H2.
  - assert (Hold : ∀ l0, l0 ∈ done → copied_from l0 evs = false).
    { intros l0 Hl0. apply not_true_is_false. intros (t & Hin)%copied_from_spec.
      destruct (Hev1 _ _ Hin) as [->|[-> _]]; [|done].
      eapply label_not_image; [|done]. by eapply Forall_forall in Hdone. }
    assert (Hnew : copied_from l new = false).
    { apply not_true_is_false. intros (t & Hin)%copied_from_spec.
      destruct (Hattr _ _ Hin) as (l0 & Hl0 & [->|[-> _]]); [|done].
      by eapply label_not_image. }
    rewrite filter_app, length_app.
    rewrite (filter_ext_elem _ (λ l0, copied_from l0 new = true) done).
    2:{ intros l0 Hl0. rewrite copied_from_app, (Hold l0 Hl0). by rewrite orb_false_r. }
    rewrite Hk', Hk, <- Nat.add_assoc. f_equal. f_equal.
    destruct (copied_from l evs) eqn:Hc.
    + rewrite filter_cons_True; [done|]. by rewrite copied_from_app, Hc, orb_true_r.
    + rewrite filter_cons_False; [done|]. by rewrite copied_from_app, Hc, Hnew.
Qed.

Lemma labels_inv_loop sa k0 ls k s :
  NoDup ls → Forall (is_label lbls) ls →
  process_labels imgs out ls k0 sa = (Ok k, s) → labels_inv imgs lbls out sa k0 ls k s.
Proof.
  intros Hnd Hls Hrun.
  apply (process_labels_invariant imgs lbls out
           (λ done k s, Forall (is_label lbls) done ∧ labels_inv imgs lbls out sa k0 done k s) ls Hnd Hls)
    with (done := []) (k := k0) (s := sa) (k' := k) (s' := s); [| | |done].
  - intros done l k1 s1 k2 s2 Hl Hfresh [Hdone Hinv] Hit. split.
    + apply Forall_app. split; [done|]. by apply Forall_singleton.
    + by eapply labels_inv_step.
  - intros ?? []%elem_of_nil.
  - split; [done|]. split; [apply loop_run_refl|]. exists [].
    rewrite app_nil_r. split_and!; try done.
    + intros ?? []%elem_of_nil.
    + intros ? []%elem_of_nil.
    + intros ? []%elem_of_nil.
Qed.

End Summary.

(** ** The listing of the labels directory *)

Lemma NoDup_omap_inj {A B} (f : A → option B) (l : list A) :
  NoDup l →
  (∀ x y z, x ∈ l → y ∈ l → f x = Some z → f y = Some z → x = y) →
  NoDup (omap f l).
Proof.
  induction 1 as [|a l Ha Hnd IH]; intros Hinj; simpl; [constructor|].
  assert (Hrest : NoDup (omap f l)).
  { apply IH. intros x y z Hx Hy. apply Hinj; by right. }
  destruct (f a) as [b|] eqn:Hfa; [|done].
  constructor; [|done].
  intros (x & Hx & Hfx)%list_elem_of_omap.
  apply Ha. rewrite (Hinj a x b); [done|by left|by right|done..].
Qed.

Lemma elem_of_entries (m : filesystem) d x :
  x ∈ entries m d ↔ is_Some (m !! (d / x)).
Proof.
  unfold entries. rewrite list_elem_of_omap. split.
  - intros ([[|n d'] v] & Hin%elem_of_map_to_list & Hf); simpl in *; [done|].
    case_decide; simplify_eq. by eexists.
  - intros [v Hv]. exists (d / x, v). split; [by apply elem_of_map_to_list|].
    simpl. by rewrite decide_True.
Qed.

Lemma NoDup_entries (m : filesystem) d : NoDup (entries m d).
Proof.
  unfold entries. apply NoDup_omap_inj; [apply NoDup_map_to_list|].
  intros [[|n1 d1] v1] [[|n2 d2] v2] z H1%elem_of_map_to_list H2%elem_of_map_to_list;
    simpl; try done.
  repeat case_decide; try done. intros [= ->] [= ->]. subst. congruence.
Qed.

Section LabelFiles.
Variable order : list string → list string.
Hypothesis order_perm : ∀ l, order l ≡ₚ l.

(** The label files are the regular files of the labels directory whose
    suffix is ".txt" in any case, each once. *)
Lemma elem_of_label_files lbls m l :
  l ∈ label_files order lbls m ↔
  ∃ x, l = lbls / x ∧ txt_name x ∧ is_file m l = true.
Proof.
  unfold label_files. rewrite list_elem_of_filter, list_elem_of_fmap.
  unfold is_label_file, txt_name. split.
  - intros ([Hf Ht%bool_decide_eq_true]%andb_prop & x & -> & Hx). by exists x.
  - intros (x & -> & Ht & Hf). split.
    + rewrite Hf. simpl. by apply bool_decide_eq_true.
    + exists x. split; [done|]. rewrite order_perm. apply elem_of_entries.
      apply is_file_stat in Hf as [data Hd]. by exists (File data).
Qed.

Lemma NoDup_label_files lbls m : NoDup (label_files order lbls m).
Proof.
  unfold label_files. apply NoDup_filter, NoDup_fmap_2.
  - intros x y. unfold joinpath. congruence.
  - rewrite order_perm. apply NoDup_entries.
Qed.

Lemma label_files_labels lbls m : Forall (is_label lbls) (label_files order lbls m).
Proof.
  apply Forall_forall. intros l (x & -> & Ht & _)%elem_of_label_files.
  by exists x.
Qed.
End LabelFiles.

(** ** The whole run *)

Lemma loop_copy_image_target imgs lbls out n t :
  jpg_name n → loop_copy imgs lbls out (imgs / n) t →
  t = out / "images" / n ∨ t = out / "images" / n / n.
Proof.
  intros Hn [(n' & Hn' & Hsrc & Ht)|(x & Hx & Hsrc & Ht)]; path_inj; [done|].
  exfalso. eauto using jpg_not_txt.
Qed.

Lemma loop_copy_label_target imgs lbls out x t :
  txt_name x → loop_copy imgs lbls out (lbls / x) t →
  t = out / "labels" / x ∨ t = out / "labels" / x / x.
Proof.
  intros Hx [(n' & Hn' & Hsrc & Ht)|(x' & Hx' & Hsrc & Ht)]; path_inj; [|done].
  exfalso. eauto using jpg_not_txt.
Qed.

(** What the copy of the class file leaves of the loop's work. *)
Lemma class_copy_frame imgs lbls out cls m m' tc src t :
  OS.copy2 cls (out / PurePath.name cls) m = inr (m', tc) →
  loop_copy imgs lbls out src t → stat m' t = stat m t.
Proof.
  intros (-> & _ & _ & _ & data & _ & ->)%copy2_inr Hc.
  apply stat_insert_ne. intros Heq.
  destruct (loop_copy_not_class _ _ _ _ _ (PurePath.name cls) Hc) as [H1 H2].
  destruct (copy2_target_cases cls (out / PurePath.name cls) m) as [Ht|Ht];
    rewrite Ht in Heq; [by apply H1|].
  apply H2. rewrite <- Heq. done.
Qed.

Section WholeRun.
Variable order : list string → list string.
Hypothesis order_perm : ∀ l, order l ≡ₚ l.
Variables imgs lbls out cls : path.

Lemma label_files_dirs_added m ma l :
  dirs_added m ma →
  l ∈ label_files order lbls ma ↔ l ∈ label_files order lbls m.
Proof.
  intros Hadd. rewrite !elem_of_label_files by done.
  by setoid_rewrite (dirs_added_is_file _ _ _ Hadd).
Qed.

Lemma label_files_dirs_added_perm m ma :
  dirs_added m ma → label_files order lbls ma ≡ₚ label_files order lbls m.
Proof.
  intros Hadd. apply NoDup_Permutation; [by apply NoDup_label_files..|].
  intros l. by apply label_files_dirs_added.
Qed.

(** A run that passes the validation and creates its directories:
    the loop, then the copy of the class file. *)
Lemma run_summary m ma :
  sources_valid m imgs lbls cls = true →
  output_dirs out m = inr ma →
  ∃ k sL,
    labels_inv imgs lbls out (State ma (prelude out)) 0 (label_files order lbls ma) k sL ∧
    filter_annotated_data order imgs lbls out cls (State m []) =
      match OS.copy2 cls (out / PurePath.name cls) (fs sL) with
      | inl e => (Raise e, sL)
      | inr (m', tc) =>
          (Ok (), State m' (trace sL ++ [Copied cls tc;
                                          Logged INFO (FilteringComplete k);
                                          Logged INFO (FilteredDataAvailable out)]))
      end.
Proof.
  intros Hv Hout.
  destruct (run_valid order imgs lbls out cls m [] ma Hv Hout) as (k & sL & Hloop & Hrun).
  exists k, sL. split; [|done].
  apply labels_inv_loop; [by apply NoDup_label_files|by apply label_files_labels|done].
Qed.

(** C1, amended.  A label file whose image exists in the images
    directory, in a run that passes the validation and creates its
    directories: unless an exception is logged for that label, the
    image and the label are in the output tree after the run, under
    "images" and "labels" and under their own names, with the bytes the
    sources had at the call. *)
Theorem matched_pair_copied_identical m ma x di dl :
  sources_valid m imgs lbls cls = true →
  output_dirs out m = inr ma →
  PyStr.lower (PurePath.suffix (lbls / x)) = ".txt" →
  stat m (lbls / x) = Some (File dl) →
  stat m (imgs / image_filename (lbls / x)) = Some (File di) →
  let n := image_filename (lbls / x) in
  let s' := (filter_annotated_data order imgs lbls out cls (State m [])).2 in
  (∀ e, Logged ERROR (ErrorProcessingLabel x e) ∉ trace s') →
  ∃ t1 t2,
    Copied (imgs / n) t1 ∈ trace s' ∧ Copied (lbls / x) t2 ∈ trace s' ∧
    (t1 = out / "images" / n ∨ t1 = out / "images" / n / n) ∧
    (t2 = out / "labels" / x ∨ t2 = out / "labels" / x / x) ∧
    stat (fs s') t1 = Some (File di) ∧ stat (fs s') t2 = Some (File dl).
Proof.
  intros Hv Hout Htxt Hl Hi n s' Hnoerr. subst n.
  destruct (run_summary m ma Hv Hout) as (k & sL & Hinv & Hrun).
  destruct (output_dirs_inr _ _ _ Hout) as (Hadd & _ & _).
  destruct Hinv as (Hloop & new & Htr & Hattr & Hlog & _).
  destruct (loop_run_facts _ _ _ _ _ Hloop) as (new' & Htr' & _ & _ & Hcopies & _).
  rewrite Htr in Htr'. apply app_inv_head in Htr'. subst new'.
  assert (Hin : lbls / x ∈ label_files order lbls ma).
  { apply (label_files_dirs_added m ma _ Hadd), elem_of_label_files; [done|].
    exists x. split_and!; [done..|]. apply is_file_stat. eauto. }
  assert (Hsub : ∀ ev, ev ∈ new → ev ∈ trace s').
  { intros ev Hev. unfold s'. rewrite Hrun.
    destruct (OS.copy2 cls _ (fs sL)) as [e|[m' tc]]; simpl; rewrite Htr;
      rewrite ?elem_of_app; auto. }
  assert (Hfs : ∀ src t, loop_copy imgs lbls out src t → stat (fs s') t = stat (fs sL) t).
  { intros src t Hc. unfold s'. rewrite Hrun.
    destruct (OS.copy2 cls _ (fs sL)) as [e|[m' tc]] eqn:Hcls; [done|].
    simpl. by eapply class_copy_frame. }
  destruct (Hlog _ Hin) as [[Hf _]|[[_ [e He]]|(_ & t1 & t2 & H1 & H2)]].
  - exfalso. cbn [fs] in Hf. rewrite (dirs_added_is_file _ _ _ Hadd) in Hf.
    unfold is_file in Hf. by rewrite Hi in Hf.
  - exfalso. by eapply Hnoerr, Hsub.
  - exists t1, t2.
    destruct (Hcopies _ _ H1) as (Hc1 & _ & d1 & Hsrc1 & Ht1).
    destruct (Hcopies _ _ H2) as (Hc2 & _ & d2 & Hsrc2 & Ht2).
    cbn [fs] in Hsrc1, Hsrc2.
    apply (dirs_added_file _ _ _ _ Hadd) in Hsrc1, Hsrc2.
    assert (d1 = di) as -> by congruence. assert (d2 = dl) as -> by congruence.
    split_and!; [by apply Hsub|by apply Hsub|..].
    + eapply loop_copy_image_target; [apply image_filename_jpg|done].
    + by eapply loop_copy_label_target.
    + by rewrite (Hfs _ _ Hc1).
    + by rewrite (Hfs _ _ Hc2).
Qed.

Lemma class_target_not_under_labels x t :
  txt_name x →
  t = out / x ∨ t = out / x / x → ¬ (out / "labels") `suffix_of` t.
Proof.
  intros Hx Ht [pre Hpre]. unfold joinpath in *.
  assert (Hlen := f_equal List.length Hpre). rewrite length_app in Hlen.
  destruct Ht as [->| ->]; simpl in Hlen.
  - destruct pre as [|a pre]; simpl in *; [|lia]. simplify_eq.
    by apply labels_not_txt.
  - destruct pre as [|a [|b pre]]; simpl in *; [lia| |lia]. simplify_eq.
    by apply labels_not_txt.
Qed.

End WholeRun.

(** ** The image name of a label *)




(** C10.  An iteration that copies a pair (the count goes up): the label
    is written under "labels" with the name it has in the labels
    directory, the image under "images" with the derived name; a
    destination that is a directory receives the file inside it, under
    the same name. *)
Theorem copied_pair_keeps_names imgs out l k s s' :
  process_label imgs out l k s = (Ok (k + 1), s') →
  let n := image_filename l in
  ∃ t1 t2,
    trace s' = trace s ++ [Copied (imgs / n) t1; Copied l t2] ∧
    t1 = (if is_dir (fs s) (out / "images" / n)
          then out / "images" / n / n else out / "images" / n) ∧
    t2 = (if is_dir (fs s) (out / "labels" / PurePath.name l)
          then out / "labels" / PurePath.name l / PurePath.name l
          else out / "labels" / PurePath.name l) ∧
    PurePath.name t1 = n ∧ PurePath.name t2 = PurePath.name l ∧
    is_file (fs s') t1 = true ∧ is_file (fs s') t2 = true.
Proof.
  intros Hrun n. subst n. apply process_label_iteration in Hrun.
  inversion Hrun as [Hf Hk|e Hf H1 Hk|m1 t1 e Hf H1 H2 Hk|m1 t1 m2 t2 Hf H1 H2 Hk]; try lia.
  subst. exists t1, t2. cbn [fs trace].
  apply copy2_inr in H1 as (Ht1 & _ & Hd1 & _ & d1 & _ & ->).
  apply copy2_inr in H2 as (Ht2 & _ & Hd2 & _ & d2 & _ & ->).
  assert (Hdir : ∀ p, is_dir (<[t1 := File d1]> (fs s)) p = is_dir (fs s) p).
  { intros p. by apply is_dir_insert_file. }
  unfold OS.copy2_target, image_dst, label_dst in Ht1, Ht2. rewrite Hdir in Ht2.
  cbn [PurePath.name hd joinpath] in Ht1, Ht2.
  assert (Hne : t2 ≠ t1).
  { rewrite Ht1, Ht2.
    destruct (is_dir (fs s) (out / "images" / _)), (is_dir (fs s) (out / "labels" / _));
      intros Heq; path_inj. }
  assert (Hnr1 : t1 ≠ [])
    by (rewrite Ht1; destruct (is_dir (fs s) (out / "images" / _)); discriminate).
  assert (Hnr2 : t2 ≠ [])
    by (rewrite Ht2; destruct (is_dir (fs s) (out / "labels" / _)); discriminate).
  split_and!; try done.
  - rewrite Ht1. by destruct (is_dir (fs s) (out / "images" / _)).
  - rewrite Ht2. by destruct (is_dir (fs s) (out / "labels" / _)).
  - unfold is_file. rewrite stat_insert_ne by done. by rewrite stat_insert_eq.
  - unfold is_file. by rewrite stat_insert_eq.
Qed.

(** ** Validation, the class file, exceptions *)

Lemma process_label_try_raise imgs out l k s e s' :
  process_label_try imgs out l k s = (Raise e, s') → is_Exception e = true.
Proof.
  rewrite process_label_try_eq. destruct (is_file _ _); [|done].
  destruct (OS.copy2 _ _ (fs s)) as [e1|[m1 t1]] eqn:H1.
  - intros [= <- <-]. by eapply copy2_inl.
  - destruct (OS.copy2 l _ m1) as [e2|[m2 t2]] eqn:H2; [|done].
    intros [= <- <-]. by eapply copy2_inl.
Qed.

Section Outcome.
Variable order : list string → list string.
Hypothesis order_perm : ∀ l, order l ≡ₚ l.
Variables imgs lbls out cls : path.

(** The directories exist once created, whatever the loop and the copy
    of the class file do. *)
Lemma run_keeps_directories m ma :
  sources_valid m imgs lbls cls = true →
  output_dirs out m = inr ma →
  ∀ p, is_dir (fs (filter_annotated_data order imgs lbls out cls (State m [])).2) p
       = is_dir ma p.
Proof.
  intros Hv Hout p.
  destruct (run_summary order order_perm imgs lbls out cls m ma Hv Hout)
    as (k & sL & (Hloop & _) & ->).
  destruct (loop_run_facts _ _ _ _ _ Hloop) as (_ & _ & HA & _).
  destruct (OS.copy2 cls _ (fs sL)) as [e|[m' tc]] eqn:Hcls; simpl; [apply HA|].
  apply copy2_inr in Hcls as (_ & _ & Hd & _ & data & _ & ->).
  rewrite is_dir_insert_file by done. apply HA.
Qed.

(** C4, amended.  The function exits with status 1 exactly when the
    images path is not a directory, or the labels path is not a
    directory, or the class path is not a regular file; it then has
    logged the error and created nothing.  Otherwise it goes on to
    create the two output directories: if that raises, the exception
    leaves the function; if not, both are directories at the end and
    the loop has run over the label files. *)
Theorem exit_iff_sources_invalid m :
  let r := filter_annotated_data order imgs lbls out cls (State m []) in
  (r.1 = Raise (SystemExit 1) ↔
     ¬ (is_dir m imgs = true ∧ is_dir m lbls = true ∧ is_file m cls = true)) ∧
  (r.1 = Raise (SystemExit 1) →
     fs r.2 = m ∧
     trace r.2 = [Logged ERROR (SourcesNotFound (exists_ m imgs) (exists_ m lbls)
                                   (exists_ m cls))]) ∧
  (is_dir m imgs = true ∧ is_dir m lbls = true ∧ is_file m cls = true →
     match output_dirs out m with
     | inl e => r.1 = Raise e ∧ trace r.2 = []
     | inr ma =>
         is_dir (fs r.2) (out / "images") = true ∧
         is_dir (fs r.2) (out / "labels") = true ∧
         ∃ k sL,
           process_labels imgs out (label_files order lbls ma) 0
             (State ma (prelude out)) = (Ok k, sL) ∧
           trace sL `prefix_of` trace r.2
     end).
Proof.
  intros r.
  assert (Hvalid : sources_valid m imgs lbls cls = true ↔
                   is_dir m imgs = true ∧ is_dir m lbls = true ∧ is_file m cls = true).
  { unfold sources_valid. rewrite !andb_true_iff. tauto. }
  assert (Hgo : sources_valid m imgs lbls cls = true →
    r.1 ≠ Raise (SystemExit 1) ∧
    match output_dirs out m with
    | inl e => r.1 = Raise e ∧ trace r.2 = []
    | inr ma =>
        is_dir (fs r.2) (out / "images") = true ∧
        is_dir (fs r.2) (out / "labels") = true ∧
        ∃ k sL,
          process_labels imgs out (label_files order lbls ma) 0
            (State ma (prelude out)) = (Ok k, sL) ∧
          trace sL `prefix_of` trace r.2
    end).
  { intros Hv. destruct (output_dirs out m) as [e|ma] eqn:Hout.
    - unfold output_dirs in Hout.
      destruct (OS.mkdir_parents (out / "images") m) as [e1|m1] eqn:H1.
      + injection Hout as ->. unfold r.
        rewrite (run_mkdir_images_fails _ _ _ _ _ _ _ _ Hv H1). simpl.
        apply mkdir_parents_inl in H1. split_and!; [|done..].
        intros [= ->]. done.
      + unfold r. rewrite (run_mkdir_labels_fails _ _ _ _ _ _ _ _ _ Hv H1 Hout). simpl.
        apply mkdir_parents_inl in Hout. split_and!; [|done..].
        intros [= ->]. done.
    - pose proof (run_keeps_directories m ma Hv Hout) as Hdirs. fold r in Hdirs.
      destruct (output_dirs_inr _ _ _ Hout) as (_ & Hd1 & Hd2).
      destruct (run_valid order imgs lbls out cls m [] ma Hv Hout)
        as (k & sL & Hloop & Hrun). fold r in Hrun.
      split_and!; [|by rewrite Hdirs..|].
      + rewrite Hrun. destruct (OS.copy2 cls _ (fs sL)) as [e|[m' tc]] eqn:Hcls; [|done].
        simpl. apply copy2_inl in Hcls. intros [= ->]. done.
      + exists k, sL. split; [done|]. rewrite Hrun.
        destruct (OS.copy2 cls _ (fs sL)) as [e|[m' tc]]; simpl; [done|].
        by eexists. }
  split_and!.
  - split.
    + intros Hexit Hv%Hvalid. by apply Hgo in Hv as [Hne _].
    + intros Hnv. destruct (sources_valid m imgs lbls cls) eqn:Hv.
      * exfalso. by apply Hnv, Hvalid.
      * unfold r. by rewrite run_invalid.
  - intros Hexit. destruct (sources_valid m imgs lbls cls) eqn:Hv.
    + by destruct (Hgo eq_refl) as [Hne _].
    + unfold r. by rewrite run_invalid.
  - intros Hv%Hvalid. by apply Hgo in Hv as [_ ?].
Qed.

(** C5, amended.  In a run that passes the validation and creates its
    directories, the loop returns whatever it met, and then
    [shutil.copy2] is called on the class file, once: no copy made
    before goes where the class file goes.  The call is outside the
    handler: if it raises, the function raises and nothing more is
    logged; if not, the class file is in the output directory with its
    bytes, after every record of the loop, and before the final count. *)
Theorem class_file_copied_after_loop m ma :
  sources_valid m imgs lbls cls = true →
  output_dirs out m = inr ma →
  let r := filter_annotated_data order imgs lbls out cls (State m []) in
  ∃ k sL,
    process_labels imgs out (label_files order lbls ma) 0
      (State ma (prelude out)) = (Ok k, sL) ∧
    (∀ src t, Copied src t ∈ trace sL →
       t ≠ out / PurePath.name cls ∧
       t ≠ out / PurePath.name cls / PurePath.name cls) ∧
    match OS.copy2 cls (out / PurePath.name cls) (fs sL) with
    | inl e => r = (Raise e, sL)
    | inr (m', tc) =>
        r = (Ok (), State m' (trace sL ++ [Copied cls tc;
                                            Logged INFO (FilteringComplete k);
                                            Logged INFO (FilteredDataAvailable out)])) ∧
        (tc = out / PurePath.name cls ∨
         tc = out / PurePath.name cls / PurePath.name cls) ∧
        stat m' tc = stat (fs sL) cls ∧ is_file m' tc = true
    end.
Proof.
  intros Hv Hout r.
  destruct (run_valid order imgs lbls out cls m [] ma Hv Hout)
    as (k & sL & Hloop & Hrun). fold r in Hrun.
  exists k, sL. split; [done|]. split.
  - intros src t Hin.
    apply process_labels_loop_run with (lbls := lbls) in Hloop;
      [|by apply NoDup_label_files|by apply label_files_labels].
    destruct (loop_run_facts _ _ _ _ _ Hloop) as (new & Htr & _ & _ & Hcopies & _).
    rewrite Htr in Hin. apply elem_of_app in Hin as [Hin|Hin].
    + apply list_elem_of_In in Hin. simpl in Hin. intuition (simplify_eq; auto).
    + destruct (Hcopies _ _ Hin) as (Hc & _).
      by eapply loop_copy_not_class.
  - rewrite Hrun. destruct (OS.copy2 cls _ (fs sL)) as [e|[m' tc]] eqn:Hcls; [done|].
    apply copy2_inr in Hcls as (Htc & _ & _ & _ & data & Hsrc & ->).
    assert (Hnr : tc ≠ []).
    { rewrite Htc. apply copy2_target_nonroot. discriminate. }
    split_and!; [done| | |].
    + rewrite Htc. apply copy2_target_cases.
    + rewrite stat_insert_eq by done. by rewrite Hsrc.
    + unfold is_file. by rewrite stat_insert_eq.
Qed.

(** C6.  An exception raised in the [try] block of one label is caught:
    it is logged with the label's name, the count is as it was, and the
    loop goes on with the labels that remain; so the loop never raises,
    and in a run that reached it the copy of the class file comes
    next.  Every label file has its outcome in the trace: a warning, an
    error, or its two copies; only one whose error is logged lacks
    them. *)
Theorem label_exception_caught l rest k s e s' :
  process_label_try imgs out l k s = (Raise e, s') →
  process_labels imgs out (l :: rest) k s =
    process_labels imgs out rest k
      (State (fs s') (trace s' ++ [Logged ERROR (ErrorProcessingLabel (PurePath.name l) e)])) ∧
  (∀ ls k0 s0, ∃ k1 s1, process_labels imgs out ls k0 s0 = (Ok k1, s1)) ∧
  (∀ m ma,
     sources_valid m imgs lbls cls = true →
     output_dirs out m = inr ma →
     let r := filter_annotated_data order imgs lbls out cls (State m []) in
     (∃ k1 sL,
        process_labels imgs out (label_files order lbls ma) 0
          (State ma (prelude out)) = (Ok k1, sL) ∧
        match OS.copy2 cls (out / PurePath.name cls) (fs sL) with
        | inl e' => r = (Raise e', sL)
        | inr (m', tc) => r.1 = Ok () ∧ fs r.2 = m' ∧ Copied cls tc ∈ trace r.2
        end) ∧
     ∀ l', l' ∈ label_files order lbls m →
       Logged WARNING (SkippingLabel (PurePath.name l') (image_filename l')) ∈ trace r.2 ∨
       (∃ e', Logged ERROR (ErrorProcessingLabel (PurePath.name l') e') ∈ trace r.2) ∨
       (∃ t1 t2, Copied (imgs / image_filename l') t1 ∈ trace r.2 ∧
                 Copied l' t2 ∈ trace r.2)).
Proof.
  intros Hraise. split_and!.
  - simpl. unfold bind at 1. unfold process_label, try_except. rewrite Hraise.
    rewrite (process_label_try_raise _ _ _ _ _ _ _ Hraise).
    unfold bind at 1. by unfold logging_error, emit, ret.
  - intros ls k0 s0. apply process_labels_ok.
  - intros m ma Hv Hout r.
    destruct (run_summary order order_perm imgs lbls out cls m ma Hv Hout)
      as (k1 & sL & Hinv & Hrun). fold r in Hrun.
    destruct (run_valid order imgs lbls out cls m [] ma Hv Hout)
      as (k2 & sL2 & Hloop & Hrun2). fold r in Hrun2.
    destruct (output_dirs_inr _ _ _ Hout) as (Hadd & _ & _).
    split.
    + exists k2, sL2. split; [done|]. rewrite Hrun2.
      destruct (OS.copy2 cls _ (fs sL2)) as [e'|[m' tc]]; [done|]. simpl.
      split_and!; [done..|]. apply elem_of_app. right. by left.
    + destruct Hinv as (_ & new & Htr & _ & Hlog & _).
      assert (Hsub : ∀ ev, ev ∈ new → ev ∈ trace r.2).
      { intros ev Hev. rewrite Hrun.
        destruct (OS.copy2 cls _ (fs sL)) as [e'|[m' tc]]; simpl; rewrite Htr;
          rewrite ?elem_of_app; auto. }
      intros l' Hl'%(label_files_dirs_added order order_perm lbls m ma _ Hadd).
      destruct (Hlog _ Hl') as [[_ Hw]|[[_ [e' He]]|(_ & t1 & t2 & H1 & H2)]].
      * left. by apply Hsub.
      * right; left. exists e'. by apply Hsub.
      * right; right. exists t1, t2. split; by apply Hsub.
Qed.
End Outcome.

(** ** The final count *)

Lemma existsb_is_copy_into src dir tr :
  existsb (is_copy_into src dir) tr = true ↔
  ∃ t, Copied src t ∈ tr ∧ dir `suffix_of` t.
Proof.
  rewrite existsb_exists. split.
  - intros ([lvl msg|s t] & Hin%list_elem_of_In & Hev); [done|]. simpl in Hev.
    apply andb_prop in Hev as [->%bool_decide_eq_true ?%bool_decide_eq_true]. eauto.
  - intros (t & Hin%list_elem_of_In & Hsuf). exists (Copied src t).
    split; [done|]. simpl. by rewrite !bool_decide_eq_true_2.
Qed.

Lemma under_cases (dir : path) x t :
  t = dir / x ∨ t = dir / x / x → dir `suffix_of` t.
Proof. intros [-> | ->]; [by exists [x]|by exists [x; x]]. Qed.

Section Count.
Variable order : list string → list string.
Hypothesis order_perm : ∀ l, order l ≡ₚ l.
Variables imgs lbls out cls : path.

(** A run that returns passed the validation and created its
    directories. *)
Lemma run_ok_inv m s' :
  filter_annotated_data order imgs lbls out cls (State m []) = (Ok (), s') →
  sources_valid m imgs lbls cls = true ∧ ∃ ma, output_dirs out m = inr ma.
Proof.
  intros Hrun. destruct (sources_valid m imgs lbls cls) eqn:Hv.
  2:{ by rewrite run_invalid in Hrun. }
  split; [done|]. unfold output_dirs.
  destruct (OS.mkdir_parents (out / "images") m) as [e1|m1] eqn:H1.
  { by rewrite (run_mkdir_images_fails _ _ _ _ _ _ _ _ Hv H1) in Hrun. }
  destruct (OS.mkdir_parents (out / "labels") m1) as [e2|ma] eqn:H2; [|by eexists].
  by rewrite (run_mkdir_labels_fails _ _ _ _ _ _ _ _ _ Hv H1 H2) in Hrun.
Qed.

(** C8.  When the function returns, the trace ends with the record of
    the count and the closing record, and the count is the number of
    label files whose image was copied under "images" and which were
    themselves copied under "labels" during the run. *)
Theorem final_count_is_copied_pairs m s' :
  filter_annotated_data order imgs lbls out cls (State m []) = (Ok (), s') →
  ∃ k before,
    trace s' = before ++ [Logged INFO (FilteringComplete k);
                          Logged INFO (FilteredDataAvailable out)] ∧
    k = List.length (filter (λ l, pair_copied imgs out (trace s') l = true)
                       (label_files order lbls m)).
Proof.
  intros Hrun. destruct (run_ok_inv _ _ Hrun) as (Hv & ma & Hout).
  destruct (run_summary order order_perm imgs lbls out cls m ma Hv Hout)
    as (k & sL & Hinv & Hrun'). rewrite Hrun in Hrun'.
  destruct (output_dirs_inr _ _ _ Hout) as (Hadd & _ & _).
  destruct Hinv as (Hloop & new & Htr & Hattr & _ & _ & Hk).
  destruct (loop_run_facts _ _ _ _ _ Hloop) as (new' & Htr' & _ & _ & Hcopies & _).
  rewrite Htr in Htr'. apply app_inv_head in Htr'. subst new'.
  destruct (OS.copy2 cls _ (fs sL)) as [e|[m' tc]] eqn:Hcls; [done|].
  injection Hrun' as ->. cbn [trace]. rewrite Htr. cbn [trace].
  apply copy2_inr in Hcls as (Htc & _).
  exists k, (prelude out ++ new ++ [Copied cls tc]). split.
  { by rewrite <- !app_assoc. }
  rewrite Hk, Nat.add_0_l.
  set (tr := (prelude out ++ new) ++ _).
  assert (Hsub : ∀ ev, ev ∈ new → ev ∈ tr).
  { intros ev Hev. unfold tr. rewrite !elem_of_app. auto. }
  assert (Hcases : ∀ src t, Copied src t ∈ tr → Copied src t ∈ new ∨ (src = cls ∧ t = tc)).
  { intros src t. unfold tr. rewrite !elem_of_app. intros [[Hin|Hin]|Hin]; [|by left|].
    - apply list_elem_of_In in Hin. simpl in Hin. intuition (simplify_eq; auto).
    - apply list_elem_of_In in Hin. simpl in Hin. intuition (simplify_eq; auto). }
  clearbody tr.
  rewrite <- (label_files_dirs_added_perm order order_perm lbls m ma Hadd).
  f_equal. apply filter_ext_elem. intros l (x & -> & Hx & _)%elem_of_label_files; [|done].
  rewrite copied_from_spec. unfold pair_copied. rewrite andb_true_iff.
  rewrite !existsb_is_copy_into. split.
  - intros [t2 Hin]. destruct (Hattr _ _ Hin) as (l0 & _ & [Heq|[<- [t1 Ht1]]]).
    { exfalso. eapply (label_not_image imgs lbls); [|done]. by exists x. }
    split.
    + exists t1. split; [by apply Hsub|].
      destruct (Hcopies _ _ Ht1) as (Hc & _).
      eapply under_cases, loop_copy_image_target; [|done]. apply image_filename_jpg.
    + exists t2. split; [by apply Hsub|].
      destruct (Hcopies _ _ Hin) as (Hc & _).
      eapply under_cases, loop_copy_label_target; done.
  - intros [_ (t2 & [Hin|[Hl ->]]%Hcases & Hunder)]; [by exists t2|].
    exfalso. eapply (class_target_not_under_labels out x); [done| |done].
    rewrite Htc, <- Hl. apply copy2_target_cases.
Qed.
End Count.

(** ** A second run *)





Section Idempotence.
Variables order order' : list string → list string.
Hypothesis order_perm : ∀ l, order l ≡ₚ l.
Hypothesis order_perm' : ∀ l, order' l ≡ₚ l.
Variables imgs lbls out cls : path.



End Idempotence.

(** ** The file system stays a tree *)

Lemma well_formed_insert (m : filesystem) t v :
  well_formed m →
  is_dir m (PurePath.parent t) = true →
  (v = Dir ∨ is_dir m t = false) →
  well_formed (<[t := v]> m).
Proof.
  intros Hwf Hparent Hv p w Hp.
  assert (Hkeep : ∀ q, is_dir m q = true → q ≠ t ∨ v = Dir → is_dir (<[t := v]> m) q = true).
  { intros q Hq Hor. unfold is_dir in *. destruct q as [|n d]; [done|]. simpl in *.
    destruct (decide (t = n :: d)) as [->|Hne].
    - rewrite lookup_insert_eq. destruct Hor as [?| ->]; done.
    - by rewrite lookup_insert_ne. }
  destruct (decide (t = p)) as [<-|Hne].
  - apply Hkeep; [done|]. destruct Hv as [->|Hf]; [by right|left].
    intros Heq. rewrite Heq in Hparent. congruence.
  - rewrite lookup_insert_ne in Hp by done. pose proof (Hwf _ _ Hp) as Hd. simpl in Hd.
    apply Hkeep; [done|]. destruct Hv as [->|Hf]; [by right|left]. congruence.
Qed.

Lemma os_mkdir_well_formed p m m' :
  OS.mkdir p m = inr m' → well_formed m → well_formed m'.
Proof.
  unfold OS.mkdir. destruct (stat m p); [done|].
  destruct (stat m (PurePath.parent p)) as [[|data]|] eqn:Hparent; try done.
  intros [= <-] Hwf. apply well_formed_insert; [done| |by left].
  unfold is_dir. by rewrite Hparent.
Qed.

Lemma mkdir_parents_unfold p m :
  OS.mkdir_parents p m =
    match OS.mkdir p m with
    | inr m' => inr m'
    | inl e =>
        if is_FileNotFoundError e then
          match p with
          | [] => inl e
          | _ :: parent =>
              match OS.mkdir_parents parent m with
              | inl e' => inl e'
              | inr m' => OS.mkdir_exist_ok p m'
              end
          end
        else if is_dir m p then inr m else inl e
    end.
Proof. by destruct p. Qed.

Lemma mkdir_parents_well_formed p m m' :
  OS.mkdir_parents p m = inr m' → well_formed m → well_formed m'.
Proof.
  assert (Hok : ∀ p m m', OS.mkdir_exist_ok p m = inr m' → well_formed m → well_formed m').
  { intros q m0 m0'. unfold OS.mkdir_exist_ok.
    destruct (OS.mkdir q m0) as [e|m1] eqn:Hmk.
    - repeat case_match; try done. by intros [= <-].
    - intros [= <-]. by eapply os_mkdir_well_formed. }
  revert m m'. induction p as [|n d IH]; intros m m'; rewrite mkdir_parents_unfold.
  - destruct (OS.mkdir [] m) as [e|m1] eqn:Hmk.
    + repeat case_match; try done. by intros [= <-].
    + intros [= <-]. by eapply os_mkdir_well_formed.
  - destruct (OS.mkdir (n :: d) m) as [e|m1] eqn:Hmk.
    + destruct (is_FileNotFoundError e).
      * destruct (OS.mkdir_parents d m) as [e'|m2] eqn:Hpar; [done|].
        intros H2 Hwf. eapply Hok; [done|]. by eapply IH.
      * case_match; [|done]. by intros [= <-].
    + intros [= <-]. by eapply os_mkdir_well_formed.
Qed.

Lemma copy2_well_formed src dst m m' t :
  OS.copy2 src dst m = inr (m', t) → well_formed m → well_formed m'.
Proof.
  intros (_ & _ & Hd & Hp & data & _ & ->)%copy2_inr Hwf.
  apply well_formed_insert; [done..|by right].
Qed.

Lemma iteration_well_formed imgs out l k s k' s' :
  iteration imgs out l k s k' s' → well_formed (fs s) → well_formed (fs s').
Proof.
  intros [Hf|e Hf H1|m1 t1 e Hf H1 H2|m1 t1 m2 t2 Hf H1 H2] Hwf; cbn [fs];
    eauto using copy2_well_formed.
Qed.

Lemma process_labels_well_formed imgs out ls k s k' s' :
  process_labels imgs out ls k s = (Ok k', s') →
  well_formed (fs s) → well_formed (fs s').
Proof.
  revert k s. induction ls as [|l ls IH]; intros k s; simpl.
  - by intros [= <- <-].
  - destruct (process_label_ok imgs out l k s) as (k1 & s1 & H1).
    unfold bind. rewrite H1. intros Hrest Hwf. eapply IH; [done|].
    eapply iteration_well_formed; [|done]. by apply process_label_iteration.
Qed.

(** X1.  The function leaves a tree a tree, however it ends: when every
    entry of the file system lies in a directory before the run, so it is
    after it; nothing is ever written where its parent is missing or is
    a regular file. *)
Lemma filter_annotated_data_well_formed order imgs lbls out cls m :
  well_formed m →
  well_formed (fs (filter_annotated_data order imgs lbls out cls (State m [])).2).
Proof.
  intros Hwf. destruct (sources_valid m imgs lbls cls) eqn:Hv.
  2:{ by rewrite run_invalid. }
  destruct (OS.mkdir_parents (out / "images") m) as [e|mi] eqn:H1.
  { by rewrite (run_mkdir_images_fails _ _ _ _ _ _ _ _ Hv H1). }
  apply mkdir_parents_well_formed in H1 as Hwf1; [|done].
  destruct (OS.mkdir_parents (out / "labels") mi) as [e|ma] eqn:H2.
  { by rewrite (run_mkdir_labels_fails _ _ _ _ _ _ _ _ _ Hv H1 H2). }
  apply mkdir_parents_well_formed in H2 as Hwf2; [|done].
  assert (Hout : output_dirs out m = inr ma) by (unfold output_dirs; by rewrite H1).
  destruct (run_valid order imgs lbls out cls m [] ma Hv Hout) as (k & sL & Hloop & ->).
  apply process_labels_well_formed in Hloop; [|done].
  destruct (OS.copy2 cls _ (fs sL)) as [e|[m' tc]] eqn:Hcls; [done|].
  cbn [snd fs]. by eapply copy2_well_formed.
Qed.

(** ** The script *)

(** The exit status of the script: 0 when the function returns, 1 when it
    exits or raises. *)
Lemma script_exit_status order imgs lbls out cls s :
  exit_status (script order imgs lbls out cls s).1 =
    match (filter_annotated_data order imgs lbls out cls s).1 with
    | Ok _ => 0%Z
    | Raise (SystemExit code) => code
    | Raise _ => 1%Z
    end.
Proof.
  unfold script, try_except. unfold bind at 1.
  destruct (filter_annotated_data order imgs lbls out cls s) as [[[]|e] s'];
    [done|]. by destruct e.
Qed.

(** The script around the function. *)
Lemma script_eq order imgs lbls out cls s :
  script order imgs lbls out cls s =
    match filter_annotated_data order imgs lbls out cls s with
    | (Ok _, s') => (Ok (), State (fs s') (trace s' ++ [Logged INFO ScriptFinished]))
    | (Raise e, s') =>
        if is_Exception e
        then (Raise (SystemExit 1),
              State (fs s') (trace s' ++ [Logged ERROR (ErrorDuringFiltering e)]))
        else (Raise e, s')
    end.
Proof.
  unfold script, try_except. unfold bind at 1.
  destruct (filter_annotated_data order imgs lbls out cls s) as [[[]|e] s']; [done|].
  by destruct (is_Exception e).
Qed.

(** What the function raises: the exit of the failed validation, or an
    exception of [Path.mkdir] or [shutil.copy2]. *)
Lemma run_raise order imgs lbls out cls m e :
  (filter_annotated_data order imgs lbls out cls (State m [])).1 = Raise e →
  if sources_valid m imgs lbls cls then is_Exception e = true else e = SystemExit 1.
Proof.
  destruct (sources_valid m imgs lbls cls) eqn:Hv.
  2:{ rewrite run_invalid by done. by intros [= <-]. }
  destruct (OS.mkdir_parents (out / "images") m) as [e1|mi] eqn:H1.
  { rewrite (run_mkdir_images_fails _ _ _ _ _ _ _ _ Hv H1). intros [= <-].
    by eapply mkdir_parents_inl. }
  destruct (OS.mkdir_parents (out / "labels") mi) as [e2|ma] eqn:H2.
  { rewrite (run_mkdir_labels_fails _ _ _ _ _ _ _ _ _ Hv H1 H2). intros [= <-].
    by eapply mkdir_parents_inl. }
  assert (Hout : output_dirs out m = inr ma) by (unfold output_dirs; by rewrite H1).
  destruct (run_valid order imgs lbls out cls m [] ma Hv Hout) as (k & sL & _ & ->).
  destruct (OS.copy2 cls _ (fs sL)) as [e3|[m' tc]] eqn:Hcls; [|done].
  intros [= <-]. by eapply copy2_inl.
Qed.

(** X2.  The script (lines 105-115) around the function.  It leaves the
    file system as the function leaves it.  When the function returns,
    the script logs that it finished and the exit status is 0.  When
    the validation fails, the exit of the function passes the handler:
    nothing more is logged and the status is 1.  When [Path.mkdir] or
    the copy of the class file raises, the handler logs the exception
    and the script exits with status 1. *)
Theorem script_outcome order imgs lbls out cls m :
  let r := filter_annotated_data order imgs lbls out cls (State m []) in
  let q := script order imgs lbls out cls (State m []) in
  fs q.2 = fs r.2 ∧
  match r.1 with
  | Ok _ =>
      q.1 = Ok () ∧ exit_status q.1 = 0%Z ∧
      trace q.2 = trace r.2 ++ [Logged INFO ScriptFinished]
  | Raise e =>
      q.1 = Raise (SystemExit 1) ∧ exit_status q.1 = 1%Z ∧
      if sources_valid m imgs lbls cls
      then trace q.2 = trace r.2 ++ [Logged ERROR (ErrorDuringFiltering e)]
      else trace q.2 = trace r.2
  end.
Proof.
  intros r q. subst r q. rewrite script_eq.
  pose proof (run_raise order imgs lbls out cls m) as Hraise.
  destruct (filter_annotated_data order imgs lbls out cls (State m []))
    as [[[]|e] s']; cbn [fst snd] in *; [done|].
  specialize (Hraise e eq_refl).
  destruct (sources_valid m imgs lbls cls).
  - by rewrite Hraise.
  - by subst e.
Qed.

(** ** The label files *)

Lemma after_last_dot_append s e :
  PurePath.after_last_dot e = None →
  PurePath.after_last_dot (s +:+ String "."%char e) = Some e.
Proof.
  intros He. induction s as [|c s IH].
  - rewrite append_nil_l. simpl. by rewrite He.
  - rewrite append_cons. simpl. by rewrite IH.
Qed.

Lemma lower_txt_no_dot e :
  PyStr.lower e = "txt" → PurePath.after_last_dot e = None ∧ e ≠ EmptyString.
Proof.
  assert (Hc : ∀ c c', PyStr.lower_char c = c' → c' ≠ "."%char → c ≠ "."%char).
  { intros c c' Hl Hne ->. by vm_compute in Hl. }
  destruct e as [|c1 [|c2 [|c3 [|c4 e]]]]; try done.
  simpl. intros [= H1 H2 H3]. split; [|done].
  rewrite !decide_False; [done|by eapply Hc..].
Qed.

(** X3.  Line 46: a path is taken as a label file exactly when it is a
    regular file whose name is a stem that is not empty, a dot, and
    "txt" in any letter case. *)
Theorem label_file_names (m : filesystem) (f : path) :
  is_label_file m f = true ↔
  is_file m f = true ∧
  ∃ stem ext, stem ≠ EmptyString ∧ PyStr.lower ext = "txt" ∧
              PurePath.name f = stem +:+ "." +:+ ext.
Proof.
  unfold is_label_file. rewrite andb_true_iff, bool_decide_eq_true.
  unfold PurePath.suffix. generalize (PurePath.name f). intros nm.
  split; intros [Hf H]; (split; [done|]).
  - pose proof (stem_suffix nm) as Hnm.
    unfold PurePath.suffix_of_name, PurePath.stem_of_name, PurePath.split_suffix in *.
    destruct nm as [|c rest]; [done|].
    destruct (PurePath.after_last_dot rest) as [[|c' t]|] eqn:Hd; try done.
    assert (Hl : PyStr.lower (String c' t) = "txt").
    { simpl in H. simpl. congruence. }
    exists (PurePath.before_last_dot (String c rest)), (String c' t).
    split_and!; [|done|by rewrite append_cons, append_nil_l].
    simpl. by rewrite Hd.
  - destruct H as (stem & ext & Hne & Hext & ->).
    destruct (lower_txt_no_dot _ Hext) as [Hnd Hne'].
    destruct stem as [|c stem]; [done|].
    rewrite !append_cons, append_nil_l.
    unfold PurePath.suffix_of_name, PurePath.split_suffix.
    rewrite (after_last_dot_append stem ext Hnd).
    destruct ext as [|c' t]; [done|]. cbn [PyStr.lower]. rewrite <- Hext. done.
Qed.

(** ** The output directories *)

Lemma suffix_joinpath (p d : path) n :
  p `suffix_of` d / n → p = d / n ∨ p `suffix_of` d.
Proof.
  destruct p as [|x p]; [right; apply suffix_nil|]. apply suffix_cons_inv.
Qed.

Lemma suffix_of_joinpath (d p : path) n :
  d / n `suffix_of` p → d `suffix_of` p.
Proof. apply suffix_cons_l. Qed.

Lemma ancestors_added_refl p m : ancestors_added p m m.
Proof. intros q. by left. Qed.

Lemma ancestors_added_trans p p' m1 m2 m3 :
  ancestors_added p m1 m2 → ancestors_added p' m2 m3 →
  ∀ q, stat m3 q = stat m1 q ∨
       (stat m1 q = None ∧ stat m3 q = Some Dir ∧ (q `suffix_of` p ∨ q `suffix_of` p')).
Proof.
  intros H12 H23 q. destruct (H12 q) as [H|(H & H' & Hs)], (H23 q) as [G|(G & G' & Gs)].
  - left. congruence.
  - right. split_and!; [congruence|done|by right].
  - right. split_and!; [done|congruence|by left].
  - congruence.
Qed.

Lemma os_mkdir_ancestors_added p m m' :
  OS.mkdir p m = inr m' → ancestors_added p m m'.
Proof.
  intros (Hp & -> & Hne)%os_mkdir_inr q. rewrite stat_insert by done.
  case_decide as Heq; [|by left]. subst q. right. done.
Qed.

Lemma mkdir_exist_ok_ancestors_added p m m' :
  OS.mkdir_exist_ok p m = inr m' → ancestors_added p m m'.
Proof.
  unfold OS.mkdir_exist_ok. destruct (OS.mkdir p m) as [e|m''] eqn:Hmk.
  - repeat case_match; try done. intros [= <-]. apply ancestors_added_refl.
  - intros [= <-]. by apply os_mkdir_ancestors_added.
Qed.

(** [Path.mkdir(parents=True)] creates the directory and its missing
    ancestors, and nothing else. *)
Lemma mkdir_parents_ancestors_added p m m' :
  OS.mkdir_parents p m = inr m' → ancestors_added p m m'.
Proof.
  revert m m'. induction p as [|n d IH]; intros m m'; rewrite mkdir_parents_unfold.
  - destruct (OS.mkdir [] m) as [e|m''] eqn:Hmk.
    + repeat case_match; try done. intros [= <-]. apply ancestors_added_refl.
    + intros [= <-]. by apply os_mkdir_ancestors_added.
  - destruct (OS.mkdir (n :: d) m) as [e|m''] eqn:Hmk.
    + destruct (is_FileNotFoundError e).
      * destruct (OS.mkdir_parents d m) as [e'|m1] eqn:Hpar; [done|].
        intros H2%mkdir_exist_ok_ancestors_added. apply IH in Hpar.
        intros q. destruct (ancestors_added_trans _ _ _ _ _ Hpar H2 q)
          as [?|(? & ? & [Hs|Hs])]; [by left|right..]; split_and!; try done.
        by apply suffix_cons_r.
      * case_match; [|done]. intros [= <-]. apply ancestors_added_refl.
    + intros [= <-]. by apply os_mkdir_ancestors_added.
Qed.

(** In a tree, what lies above an existing path is a directory. *)
Lemma well_formed_parent m p :
  well_formed m → stat m p ≠ None → is_dir m (PurePath.parent p) = true.
Proof.
  intros Hwf Hp. destruct p as [|n d]; [done|].
  simpl in Hp. destruct (m !! (n :: d)) as [v|] eqn:Hv; [|done].
  apply (Hwf _ _ Hv).
Qed.

Lemma well_formed_ancestors m p q :
  well_formed m → stat m p ≠ None → q `suffix_of` p → q ≠ p → is_dir m q = true.
Proof.
  intros Hwf. induction p as [|n d IH]; intros Hp Hq Hne.
  - apply suffix_nil_inv in Hq. done.
  - pose proof (well_formed_parent m (n :: d) Hwf Hp) as Hd. simpl in Hd.
    apply suffix_joinpath in Hq as [->|Hq]; [done|].
    destruct (decide (q = d)) as [->|Hne']; [done|].
    apply IH; [|done..]. apply is_dir_stat in Hd. congruence.
Qed.

(** [Path.mkdir(parents=True, exist_ok=True)] in a tree succeeds exactly
    when neither the path nor one of its ancestors is a regular file. *)
Lemma mkdir_parents_succeeds p m :
  well_formed m →
  (∃ m', OS.mkdir_parents p m = inr m') ↔
  (∀ q, q `suffix_of` p → is_file m q = false).
Proof.
  intros Hwf. induction p as [|n d IH].
  - rewrite mkdir_parents_existing by done. split; [|by eauto].
    intros _ q ->%suffix_nil_inv. done.
  - rewrite mkdir_parents_unfold. unfold OS.mkdir.
    destruct (stat m (n :: d)) as [[|data]|] eqn:Hp.
    + simpl. unfold is_dir. rewrite Hp. split; [|by eauto].
      intros _ q Hq. destruct (decide (q = n :: d)) as [->|Hne].
      * unfold is_file. by rewrite Hp.
      * assert (Hd : is_dir m q = true).
        { eapply well_formed_ancestors; [done| |done..]. by rewrite Hp. }
        unfold is_dir in Hd. unfold is_file. by destruct (stat m q) as [[]|].
    + simpl. unfold is_dir. rewrite Hp. split; [by intros [? ?]|].
      intros Hall. specialize (Hall (n :: d) ltac:(reflexivity)).
      unfold is_file in Hall. by rewrite Hp in Hall.
    + assert (Hself : is_file m (n :: d) = false) by (unfold is_file; by rewrite Hp).
      assert (Hsplit : (∀ q, q `suffix_of` n :: d → is_file m q = false) ↔
                       (∀ q, q `suffix_of` d → is_file m q = false)).
      { split; intros Hall q Hq.
        - apply Hall. by apply suffix_cons_r.
        - apply (suffix_joinpath q d n) in Hq as [->|Hq]; [done|by apply Hall]. }
      rewrite Hsplit. cbn [PurePath.parent tl].
      destruct (stat m d) as [[|data]|] eqn:Hd; simpl.
      * split; [|by eauto]. intros _ q Hq.
        destruct (decide (q = d)) as [->|Hne]; [unfold is_file; by rewrite Hd|].
        assert (Hdq : is_dir m q = true).
        { eapply well_formed_ancestors; [done| |done..]. by rewrite Hd. }
        unfold is_dir in Hdq. unfold is_file. by destruct (stat m q) as [[]|].
      * unfold is_dir. rewrite Hp. split; [by intros [? ?]|].
        intros Hall. specialize (Hall d ltac:(reflexivity)).
        unfold is_file in Hall. by rewrite Hd in Hall.
      * rewrite <- IH. destruct (OS.mkdir_parents d m) as [e|m1] eqn:Hpar.
        { split; by intros [? ?]. }
        split; [by eauto|]. intros _.
        pose proof (mkdir_parents_ancestors_added _ _ _ Hpar) as Ha.
        apply mkdir_parents_inr in Hpar as [_ Hdir%is_dir_stat].
        assert (Hp1 : stat m1 (n :: d) = None).
        { destruct (Ha (n :: d)) as [->|(_ & _ & Hs)]; [done|].
          apply suffix_length in Hs. simpl in Hs. lia. }
        unfold OS.mkdir_exist_ok, OS.mkdir. cbn [PurePath.parent tl].
        rewrite Hp1, Hdir. eauto.
Qed.

(** X4.  Lines 40-41 in a tree: the two output directories can be
    created exactly when no regular file is in the way, that is, when
    neither "images" nor "labels" in the output directory, nor the
    output directory, nor one of its ancestors is a regular file. *)
Theorem output_dirs_created_iff (out : path) (m : filesystem) :
  well_formed m →
  (∃ ma, output_dirs out m = inr ma) ↔
  (∀ q, q `suffix_of` out / "images" ∨ q `suffix_of` out / "labels" →
        is_file m q = false).
Proof.
  intros Hwf. unfold output_dirs.
  pose proof (mkdir_parents_succeeds (out / "images") m Hwf) as H1.
  destruct (OS.mkdir_parents (out / "images") m) as [e|m1] eqn:Hmk.
  - split; [by intros [? ?]|]. intros Hall.
    destruct H1 as [_ H1]. destruct H1 as [m' ?]; [|done].
    intros q Hq. apply Hall. by left.
  - pose proof (mkdir_parents_well_formed _ _ _ Hmk Hwf) as Hwf1.
    apply mkdir_parents_inr in Hmk as [Hadd _].
    rewrite (mkdir_parents_succeeds (out / "labels") m1 Hwf1).
    setoid_rewrite (dirs_added_is_file _ _ _ Hadd).
    destruct H1 as [H1 _]. specialize (H1 (ex_intro _ m1 eq_refl)).
    split.
    + intros H2 q [Hq|Hq]; [by apply H1|by apply H2].
    + intros Hall q Hq. apply Hall. by right.
Qed.

(** ** The log of the loop *)

(** The answer of [shutil.copy2] depends on the directories, on the
    source, and on the destination's parent being a directory. *)
Lemma copy2_answer_agree src dst m m' :
  (∀ p, is_dir m p = is_dir m' p) → stat m src = stat m' src →
  is_dir m (PurePath.parent dst) = true →
  copy2_answer src dst m = copy2_answer src dst m'.
Proof.
  intros Hd Hs Hp. unfold copy2_answer, OS.copy2, OS.copy2_target.
  rewrite <- (Hd dst).
  assert (Hpar : ∀ t, t = (if is_dir m dst then dst / PurePath.name src else dst) →
                 stat m (PurePath.parent t) = Some Dir ∧ stat m' (PurePath.parent t) = Some Dir).
  { intros t ->. destruct (is_dir m dst) eqn:Hdst; simpl.
    - split; apply is_dir_stat; [done|by rewrite <- Hd].
    - split; apply is_dir_stat; [done|by rewrite <- Hd]. }
  generalize dependent (if is_dir m dst then dst / PurePath.name src else dst).
  intros t Hpar. destruct (Hpar t eq_refl) as [Hp1 Hp2].
  unfold OS.copyfile, OS.samefile, OS.read_bytes, OS.write_bytes, exists_.
  rewrite <- Hs, Hp1, Hp2.
  pose proof (Hd t) as Ht. unfold is_dir in Ht.
  destruct (bool_decide (src = t)), (stat m src) as [[|data]|]; simpl; try done.
  destruct (stat m t) as [[|?]|], (stat m' t) as [[|?]|]; done.
Qed.

Lemma copy2_answer_inl src dst m e :
  copy2_answer src dst m = inl e → is_Exception e = true.
Proof.
  unfold copy2_answer. destruct (OS.copy2 src dst m) as [e'|[m' t]] eqn:H; [|done].
  intros [= <-]. by eapply copy2_inl.
Qed.

Section Alone.
Variables imgs lbls out : path.

(** The records of a label, from the answers of [shutil.copy2] on the
    file system the iteration starts in. *)
Lemma alone_eq m l :
  is_label lbls l → is_dir m (out / "labels") = true →
  alone imgs out m l =
    if is_file m (imgs / image_filename l) then
      match copy2_answer (imgs / image_filename l) (image_dst out l) m with
      | inl e => [Logged ERROR (ErrorProcessingLabel (PurePath.name l) e)]
      | inr t1 =>
          Copied (imgs / image_filename l) t1 ::
          match copy2_answer l (label_dst out l) m with
          | inl e => [Logged ERROR (ErrorProcessingLabel (PurePath.name l) e)]
          | inr t2 => [Copied l t2]
          end
      end
    else [Logged WARNING (SkippingLabel (PurePath.name l) (image_filename l))].
Proof.
  intros Hl Hdl. unfold alone. rewrite process_label_eq. cbn [fs trace].
  destruct (is_file m _); [|done].
  unfold copy2_answer at 1.
  destruct (OS.copy2 _ _ m) as [e|[m1 t1]] eqn:H1; [done|].
  apply (image_copy_write imgs lbls out) in H1.
  rewrite (copy2_answer_agree l (label_dst out l) m m1).
  - unfold copy2_answer. by destruct (OS.copy2 l _ m1) as [e|[m2 t2]].
  - intros p. symmetry. by eapply copy_write_is_dir.
  - symmetry. eapply copy_write_source_like; [done|]. by apply label_source_like.
  - done.
Qed.

(** An iteration adds the records the label gets alone on the file
    system the iteration starts in. *)
Lemma iteration_alone l k s k' s' :
  is_label lbls l →
  iteration imgs out l k s k' s' →
  trace s' = trace s ++ alone imgs out (fs s) l ∧
  k' = k + (if copied_from l (alone imgs out (fs s) l) then 1 else 0).
Proof.
  intros Hl Hit. unfold alone. rewrite process_label_eq. cbn [fs trace].
  assert (Hne : bool_decide (imgs / image_filename l = l) = false).
  { apply bool_decide_eq_false_2. intros H. by eapply (label_not_image imgs lbls). }
  destruct Hit as [Hf|e Hf H1|m1 t1 e Hf H1 H2|m1 t1 m2 t2 Hf H1 H2];
    rewrite Hf, ?H1, ?H2; cbn [snd fst trace copied_from existsb]; rewrite ?Hne;
    simpl; (split; [done|]); rewrite ?Hne; simpl; try lia.
  rewrite bool_decide_eq_true_2 by done. done.
Qed.

(** Two file systems with the same directories and the same sources
    give a label the same records. *)
Lemma alone_agree m m' l :
  is_label lbls l →
  is_dir m (out / "images") = true → is_dir m (out / "labels") = true →
  (∀ p, is_dir m p = is_dir m' p) →
  (∀ p, source_like imgs lbls p → stat m p = stat m' p) →
  alone imgs out m l = alone imgs out m' l.
Proof.
  intros Hl Hdi Hdl Hd Hs.
  rewrite (alone_eq m l Hl Hdl), (alone_eq m' l Hl) by by rewrite <- Hd.
  unfold is_file. rewrite (Hs (imgs / image_filename l)) by apply image_source_like.
  rewrite (copy2_answer_agree (imgs / image_filename l) (image_dst out l) m m');
    [|done|by apply Hs, image_source_like|done].
  rewrite (copy2_answer_agree l (label_dst out l) m m');
    [done|done|by apply Hs, label_source_like|done].
Qed.

(** The loop: the records of the labels, each as if alone on the file
    system the loop starts in, in the order of the list; the count is
    the number of labels that were copied. *)
Lemma process_labels_alone ls k0 ma t0 k s :
  NoDup ls → Forall (is_label lbls) ls →
  is_dir ma (out / "images") = true → is_dir ma (out / "labels") = true →
  process_labels imgs out ls k0 (State ma t0) = (Ok k, s) →
  loop_run imgs lbls out (State ma t0) s ∧
  trace s = t0 ++ (ls ≫= alone imgs out ma) ∧
  k = k0 + List.length (filter (λ l, copied_from l (alone imgs out ma l) = true) ls).
Proof.
  intros Hnd Hls Hdi Hdl Hrun.
  apply (process_labels_invariant imgs lbls out
    (λ done k s, loop_run imgs lbls out (State ma t0) s ∧
                 trace s = t0 ++ (done ≫= alone imgs out ma) ∧
                 k = k0 + List.length
                        (filter (λ l, copied_from l (alone imgs out ma l) = true) done))
    ls Hnd Hls) with (done := []) (k := k0) (s := State ma t0) (k' := k) (s' := s);
    [| | |done].
  - intros done l k1 s1 k2 s2 Hl _ (Hloop & Htr & Hk) Hit.
    destruct (loop_run_facts _ _ _ _ _ Hloop) as (_ & _ & HA & HB & _).
    cbn [fs] in HA, HB.
    destruct (iteration_alone l k1 s1 k2 s2 Hl Hit) as [Htr' Hk'].
    assert (Heq : alone imgs out (fs s1) l = alone imgs out ma l).
    { apply alone_agree; [done|by rewrite HA..|done|done]. }
    rewrite Heq in Htr', Hk'.
    split_and!.
    + eapply loop_run_trans; [done|]. by eapply iteration_loop_run.
    + by rewrite Htr', Htr, bind_app, bind_singleton, <- app_assoc.
    + rewrite Hk', Hk, filter_app, length_app, <- Nat.add_assoc. f_equal. f_equal.
      destruct (copied_from l _) eqn:Hc.
      * by rewrite filter_cons_True.
      * rewrite filter_cons_False; [done|]. by rewrite Hc.
  - intros ?? []%elem_of_nil.
  - split_and!; [apply loop_run_refl|by rewrite app_nil_r|simpl; lia].
Qed.

End Alone.

Section Records.
Variables imgs lbls out : path.

(** The records logged for a label. *)
Lemma alone_logged ma l lvl msg :
  is_label lbls l → is_dir ma (out / "labels") = true →
  Logged lvl msg ∈ alone imgs out ma l →
  (lvl = WARNING ∧ msg = SkippingLabel (PurePath.name l) (image_filename l) ∧
   is_file ma (imgs / image_filename l) = false) ∨
  (lvl = ERROR ∧ is_file ma (imgs / image_filename l) = true ∧
   ∃ e, msg = ErrorProcessingLabel (PurePath.name l) e ∧ is_Exception e = true).
Proof.
  intros Hl Hdl. rewrite (alone_eq imgs lbls out ma l Hl Hdl).
  destruct (is_file ma _) eqn:Hf.
  - destruct (copy2_answer _ _ ma) as [e|t1] eqn:H1.
    + intros [= -> ->]%list_elem_of_singleton. right. split_and!; [done..|].
      exists e. split; [done|]. by eapply copy2_answer_inl.
    + destruct (copy2_answer l _ ma) as [e|t2] eqn:H2.
      * intros [[=]|[= -> ->]%list_elem_of_singleton]%elem_of_cons.
        right. split_and!; [done..|].
        exists e. split; [done|]. by eapply copy2_answer_inl.
      * intros [[=]|[=]%list_elem_of_singleton]%elem_of_cons.
  - intros [= -> ->]%list_elem_of_singleton. by left.
Qed.

(** The copies recorded for a label. *)
Lemma alone_copied ma l src t :
  is_label lbls l → is_dir ma (out / "labels") = true →
  Copied src t ∈ alone imgs out ma l →
  (src = imgs / image_filename l ∧
   copy2_answer (imgs / image_filename l) (image_dst out l) ma = inr t) ∨
  (src = l ∧ copy2_answer l (label_dst out l) ma = inr t ∧
   ∃ t1, copy2_answer (imgs / image_filename l) (image_dst out l) ma = inr t1).
Proof.
  intros Hl Hdl. rewrite (alone_eq imgs lbls out ma l Hl Hdl).
  destruct (is_file ma _) eqn:Hf.
  - destruct (copy2_answer _ _ ma) as [e|t1] eqn:H1.
    + by intros [=]%list_elem_of_singleton.
    + destruct (copy2_answer l _ ma) as [e|t2] eqn:H2.
      * intros [[= -> ->]|[=]%list_elem_of_singleton]%elem_of_cons. by left.
      * intros [[= -> ->]|[= -> ->]%list_elem_of_singleton]%elem_of_cons; [by left|].
        right. eauto.
  - by intros [=]%list_elem_of_singleton.
Qed.

End Records.

Lemma count_records_app f tr1 tr2 :
  count_records f (tr1 ++ tr2) = count_records f tr1 + count_records f tr2.
Proof. unfold count_records. by rewrite filter_app, length_app. Qed.

Section RunLog.
Variable order : list string → list string.
Hypothesis order_perm : ∀ l, order l ≡ₚ l.
Variables imgs lbls out cls : path.

(** A run that passes the validation and creates its directories, with
    the log of the loop spelled out. *)
Lemma run_alone m ma :
  sources_valid m imgs lbls cls = true →
  output_dirs out m = inr ma →
  ∃ sL,
    loop_run imgs lbls out (State ma (prelude out)) sL ∧
    trace sL = prelude out ++
               (label_files order lbls ma ≫= alone imgs out ma) ∧
    filter_annotated_data order imgs lbls out cls (State m []) =
      match OS.copy2 cls (out / PurePath.name cls) (fs sL) with
      | inl e => (Raise e, sL)
      | inr (m', tc) =>
          (Ok (),
           State m' (trace sL ++
             [Copied cls tc;
              Logged INFO (FilteringComplete
                             (pairs_alone imgs out ma (label_files order lbls ma)));
              Logged INFO (FilteredDataAvailable out)]))
      end.
Proof.
  intros Hv Hout.
  destruct (run_valid order imgs lbls out cls m [] ma Hv Hout) as (k & sL & Hloop & Hrun).
  destruct (output_dirs_inr _ _ _ Hout) as (_ & Hdi & Hdl).
  apply (process_labels_alone imgs lbls out) in Hloop as (Hlr & Htr & Hk);
    [|by apply NoDup_label_files|by apply label_files_labels|done..].
  exists sL. split_and!; [done..|].
  rewrite Hrun, Hk. done.
Qed.


(** The records of one label: one warning, or one error, or the copy
    of the label, and never two of them. *)
Lemma alone_one_outcome ma l :
  is_label lbls l → is_dir ma (out / "labels") = true →
  count_records is_warning (alone imgs out ma l) +
  count_records is_error (alone imgs out ma l) +
  (if copied_from l (alone imgs out ma l) then 1 else 0) = 1.
Proof.
  intros Hl Hdl. rewrite (alone_eq imgs lbls out ma l Hl Hdl).
  assert (Hne : bool_decide (imgs / image_filename l = l) = false).
  { apply bool_decide_eq_false_2. intros H. by eapply (label_not_image imgs lbls). }
  destruct (is_file ma _); [|done].
  destruct (copy2_answer _ _ ma) as [e|t1]; [done|].
  destruct (copy2_answer l _ ma) as [e|t2]; unfold count_records; simpl; rewrite Hne; simpl.
  - done.
  - by rewrite bool_decide_eq_true_2.
Qed.

Lemma labels_one_outcome ma ls :
  Forall (is_label lbls) ls → is_dir ma (out / "labels") = true →
  count_records is_warning ((ls ≫= alone imgs out ma)) +
  count_records is_error ((ls ≫= alone imgs out ma)) +
  pairs_alone imgs out ma ls = List.length ls.
Proof.
  intros Hls Hdl. induction Hls as [|l ls Hl Hls IH]; [done|].
  pose proof (alone_one_outcome ma l Hl Hdl) as H1.
  rewrite bind_cons, !count_records_app.
  unfold pairs_alone in *. cbn [List.length].
  destruct (copied_from l (alone imgs out ma l)) eqn:Hc.
  - rewrite filter_cons_True by done. cbn [List.length]. lia.
  - rewrite filter_cons_False by by rewrite Hc. lia.
Qed.

(** X6.  In a run that returns every label file has exactly one
    outcome: the number of label files is the count of the closing
    record plus the number of warnings plus the number of errors of
    the log. *)
Theorem every_label_has_one_outcome m s' :
  filter_annotated_data order imgs lbls out cls (State m []) = (Ok (), s') →
  ∃ k before,
    trace s' = before ++ [Logged INFO (FilteringComplete k);
                          Logged INFO (FilteredDataAvailable out)] ∧
    List.length (label_files order lbls m) =
      k + count_records is_warning (trace s') + count_records is_error (trace s').
Proof.
  intros Hrun. destruct (run_ok_inv _ _ _ _ _ _ _ Hrun) as (Hv & ma & Hout).
  destruct (run_alone m ma Hv Hout) as (sL & _ & Htr & Hrun').
  destruct (output_dirs_inr _ _ _ Hout) as (Hadd & _ & Hdl).
  rewrite Hrun in Hrun'.
  destruct (OS.copy2 cls _ (fs sL)) as [e|[m' tc]]; [done|].
  injection Hrun' as ->. cbn [trace]. rewrite Htr.
  set (ls := label_files order lbls ma).
  set (body := (ls ≫= alone imgs out ma)).
  exists (pairs_alone imgs out ma ls), (prelude out ++ body ++ [Copied cls tc]). split.
  { by rewrite <- !app_assoc. }
  rewrite <- (label_files_dirs_added_perm order order_perm lbls m ma Hadd).
  fold ls. rewrite <- (labels_one_outcome ma ls); [|by apply label_files_labels|done].
  fold body. rewrite !count_records_app.
  change (count_records is_warning (prelude out)) with 0.
  change (count_records is_error (prelude out)) with 0.
  change (count_records is_warning [_; _; _]) with 0.
  change (count_records is_error [_; _; _]) with 0.
  lia.
Qed.

End RunLog.

Section LogSound.
Variable order : list string → list string.
Hypothesis order_perm : ∀ l, order l ≡ₚ l.
Variables imgs lbls out cls : path.

(** X7.  Every record of the log of a run, whatever its end.  A warning
    names a label file of the labels directory whose image is not a
    regular file of the images directory, with the image name derived
    from the label; an error is the record of the failed validation, or
    names a label file whose image is there, with an exception of
    [shutil.copy2]; an information record is one of the four of lines
    43, 50, 82 and 83. *)
Theorem records_name_label_files m lvl msg :
  Logged lvl msg ∈ trace (filter_annotated_data order imgs lbls out cls (State m [])).2 →
  match lvl with
  | WARNING =>
      ∃ x, msg = SkippingLabel x (image_filename (lbls / x)) ∧
           is_label_file m (lbls / x) = true ∧
           is_file m (imgs / image_filename (lbls / x)) = false
  | ERROR =>
      (sources_valid m imgs lbls cls = false ∧
       msg = SourcesNotFound (exists_ m imgs) (exists_ m lbls) (exists_ m cls)) ∨
      (∃ x e, msg = ErrorProcessingLabel x e ∧ is_Exception e = true ∧
              is_label_file m (lbls / x) = true ∧
              is_file m (imgs / image_filename (lbls / x)) = true)
  | INFO =>
      msg = CreatedOutputDirectory out ∨ msg = StartingFiltering ∨
      (∃ k, msg = FilteringComplete k) ∨ msg = FilteredDataAvailable out
  end.
Proof.
  destruct (decide (sources_valid m imgs lbls cls = true)) as [Hv|Hv%not_true_is_false].
  2:{ rewrite run_invalid by done. cbn [snd trace app].
      intros [= -> ->]%list_elem_of_singleton. by left. }
  destruct (OS.mkdir_parents (out / "images") m) as [e|mi] eqn:H1.
  { rewrite (run_mkdir_images_fails _ _ _ _ _ _ _ _ Hv H1). by intros []%elem_of_nil. }
  destruct (OS.mkdir_parents (out / "labels") mi) as [e|ma] eqn:H2.
  { rewrite (run_mkdir_labels_fails _ _ _ _ _ _ _ _ _ Hv H1 H2). by intros []%elem_of_nil. }
  assert (Hout : output_dirs out m = inr ma) by (unfold output_dirs; by rewrite H1).
  destruct (run_alone order order_perm imgs lbls out cls m ma Hv Hout)
    as (sL & _ & Htr & ->).
  destruct (output_dirs_inr _ _ _ Hout) as (Hadd & _ & Hdl).
  match goal with
  | |- _ → ?Q => assert (Hloop : Logged lvl msg ∈ trace sL → Q)
  end.
  { rewrite Htr. intros [Hin|Hin]%elem_of_app.
    - apply list_elem_of_In in Hin. simpl in Hin.
      destruct Hin as [[= <- <-]|[[= <- <-]|[]]]; auto.
    - apply list_elem_of_bind in Hin as (l & Hin & Hl).
      apply (elem_of_label_files order order_perm) in Hl as (x & -> & Hx & Hf).
      assert (Hlf : is_label_file m (lbls / x) = true).
      { unfold is_label_file. rewrite <- (dirs_added_is_file _ _ _ Hadd), Hf. simpl.
        by apply bool_decide_eq_true. }
      apply (alone_logged imgs lbls out) in Hin; [|by exists x|done].
      rewrite (dirs_added_is_file _ _ _ Hadd) in Hin.
      destruct Hin as [(-> & -> & Himg)|(-> & Himg & e & -> & He)].
      + by exists x.
      + right. by exists x, e. }
  destruct (OS.copy2 cls _ (fs sL)) as [e|[m' tc]]; [done|]. cbn [snd trace].
  intros [Hin|Hin]%elem_of_app; [by apply Hloop|].
  apply list_elem_of_In in Hin. simpl in Hin.
  destruct Hin as [[=]|[[= <- <-]|[[= <- <-]|[]]]]; eauto.
Qed.

End LogSound.



Section ListingOrder.
Variables order order' : list string → list string.
Hypothesis order_perm : ∀ l, order l ≡ₚ l.
Hypothesis order_perm' : ∀ l, order' l ≡ₚ l.
Variables imgs lbls out cls : path.



End ListingOrder.

Section Edge.
Variable order : list string → list string.
Hypothesis order_perm : ∀ l, order l ≡ₚ l.
Variables imgs lbls out cls : path.

(** X9.  A labels directory without label files: the loop does
    nothing; the run creates the output directories, copies the class
    file and reports 0 pairs. *)
Theorem no_label_files_run m ma :
  sources_valid m imgs lbls cls = true →
  output_dirs out m = inr ma →
  Forall (λ x, is_label_file m (lbls / x) = false) (entries m lbls) →
  filter_annotated_data order imgs lbls out cls (State m []) =
    match OS.copy2 cls (out / PurePath.name cls) ma with
    | inl e => (Raise e, State ma (prelude out))
    | inr (m', tc) =>
        (Ok (), State m' (prelude out ++
                          [Copied cls tc;
                           Logged INFO (FilteringComplete 0);
                           Logged INFO (FilteredDataAvailable out)]))
    end.
Proof.
  intros Hv Hout Hnone.
  destruct (output_dirs_inr _ _ _ Hout) as (Hadd & _ & _).
  assert (Hnil : label_files order lbls ma = []).
  { apply elem_of_nil_inv. intros l Hl.
    apply (label_files_dirs_added order order_perm lbls m ma l Hadd) in Hl.
    unfold label_files in Hl.
    apply list_elem_of_filter in Hl as [Hl (x & -> & Hx)%list_elem_of_fmap].
    rewrite order_perm in Hx.
    rewrite Forall_forall in Hnone. by rewrite (Hnone x Hx) in Hl. }
  destruct (run_valid order imgs lbls out cls m [] ma Hv Hout) as (k & sL & Hloop & ->).
  rewrite Hnil in Hloop. injection Hloop as <- <-. done.
Qed.

(** X10.  The copy of a pair is not one step: when the image of a
    label file has been copied and the copy of the label then raises,
    the error is logged for the label, the image stays in the output
    with the bytes of the source, and the label is not copied by the
    loop (the only copy of that file a run can then make is the copy of
    the class file, when the label is the class file). *)
Theorem image_kept_without_label m ma x m1 t1 e :
  sources_valid m imgs lbls cls = true →
  output_dirs out m = inr ma →
  is_label_file m (lbls / x) = true →
  OS.copy2 (imgs / image_filename (lbls / x)) (image_dst out (lbls / x)) ma = inr (m1, t1) →
  OS.copy2 (lbls / x) (label_dst out (lbls / x)) m1 = inl e →
  let s' := (filter_annotated_data order imgs lbls out cls (State m [])).2 in
  Logged ERROR (ErrorProcessingLabel x e) ∈ trace s' ∧
  Copied (imgs / image_filename (lbls / x)) t1 ∈ trace s' ∧
  stat (fs s') t1 = stat m (imgs / image_filename (lbls / x)) ∧
  (∀ t, Copied (lbls / x) t ∈ trace s' → lbls / x = cls).
Proof.
  intros Hv Hout [Hf Hx%bool_decide_eq_true]%andb_prop H1 H2 s'. subst s'.
  set (l := lbls / x) in *.
  destruct (output_dirs_inr _ _ _ Hout) as (Hadd & _ & Hdl).
  assert (Hl : is_label lbls l) by by exists x.
  assert (Hin : l ∈ label_files order lbls ma).
  { apply (elem_of_label_files order order_perm). exists x.
    split_and!; [done..|]. by rewrite (dirs_added_is_file _ _ _ Hadd). }
  assert (Halone : alone imgs out ma l =
            [Copied (imgs / image_filename l) t1;
             Logged ERROR (ErrorProcessingLabel x e)]).
  { unfold alone. rewrite process_label_eq. cbn [fs trace].
    pose proof H1 as (_ & _ & _ & _ & data & Hd & _)%copy2_inr.
    unfold is_file. rewrite Hd, H1, H2. done. }
  destruct (run_alone order order_perm imgs lbls out cls m ma Hv Hout)
    as (sL & Hloop & Htr & ->).
  destruct (loop_run_facts _ _ _ _ _ Hloop) as (new & Htr' & _ & _ & HC & _).
  cbn [fs trace] in Htr', HC. rewrite Htr in Htr'. apply app_inv_head in Htr'. subst new.
  assert (Hsub : ∀ ev, ev ∈ alone imgs out ma l → ev ∈ trace sL).
  { intros ev Hev. rewrite Htr. apply elem_of_app. right.
    apply list_elem_of_bind. by exists l. }
  assert (Hcopy : Copied (imgs / image_filename l) t1 ∈
                  label_files order lbls ma ≫= alone imgs out ma).
  { apply list_elem_of_bind. exists l. split; [|done]. rewrite Halone. by left. }
  destruct (HC _ _ Hcopy) as (Hc & _ & data & Hsrc & Ht1).
  apply (dirs_added_file _ _ _ _ Hadd) in Hsrc.
  assert (Hnot : ∀ t, Copied l t ∈ trace sL → False).
  { intros t. rewrite Htr. intros [Hp|Hb]%elem_of_app.
    - apply list_elem_of_In in Hp. simpl in Hp. by destruct Hp as [|[|[]]].
    - apply list_elem_of_bind in Hb as (l' & Hb & Hl').
      assert (Hl'' : is_label lbls l').
      { apply (elem_of_label_files order order_perm) in Hl' as (x' & -> & ? & _).
        by exists x'. }
      pose proof Hb as Hb'.
      apply (alone_copied imgs lbls out ma l' l t Hl'' Hdl) in Hb' as [[Heq _]|[Heq _]].
      + destruct (label_not_image imgs lbls l l' Hl Heq).
      + subst l'. rewrite Halone in Hb.
        apply list_elem_of_In in Hb. simpl in Hb.
        destruct Hb as [Heq'|[[=]|[]]].
        assert (Heq'' : l = imgs / image_filename l) by congruence.
        destruct (label_not_image imgs lbls l l Hl Heq''). }
  assert (Herr : Logged ERROR (ErrorProcessingLabel x e) ∈ trace sL).
  { apply Hsub. rewrite Halone. right. by left. }
  assert (Himg : Copied (imgs / image_filename l) t1 ∈ trace sL).
  { apply Hsub. rewrite Halone. by left. }
  destruct (OS.copy2 cls _ (fs sL)) as [e'|[m' tc]] eqn:Hcls; cbn [snd fs trace].
  - split_and!; [done|done|congruence|]. intros t Ht. by destruct (Hnot t).
  - split_and!.
    + apply elem_of_app. by left.
    + apply elem_of_app. by left.
    + rewrite (class_copy_frame _ _ _ _ _ _ _ _ _ Hcls Hc). congruence.
    + intros t [Ht|Ht]%elem_of_app; [by destruct (Hnot t)|].
      apply list_elem_of_In in Ht. simpl in Ht. by destruct Ht as [[= <-]|[|[|[]]]].
Qed.

End Edge.

(** ** What a run changes *)

Lemma loop_copy_under imgs lbls out src t :
  loop_copy imgs lbls out src t → out `suffix_of` t ∧ t ≠ out.
Proof.
  intros [(n & _ & _ & [-> | ->])|(x & _ & _ & [-> | ->])]; split;
    try (by eexists [_; _]); try (by eexists [_; _; _]);
    intros H; path_len H.
Qed.

Section Changes.
Variable order : list string → list string.
Hypothesis order_perm : ∀ l, order l ≡ₚ l.
Variables imgs lbls out cls : path.

(** What a run changes, whatever its end: a missing ancestor of one of
    the two output directories, created as a directory; or a regular
    file written below the output directory, where no directory was. *)
Lemma run_changes m p :
  let m' := fs (filter_annotated_data order imgs lbls out cls (State m [])).2 in
  stat m' p = stat m p ∨
  (stat m p = None ∧ stat m' p = Some Dir ∧
   (p `suffix_of` out / "images" ∨ p `suffix_of` out / "labels")) ∨
  (out `suffix_of` p ∧ p ≠ out ∧ is_dir m p = false ∧ is_file m' p = true).
Proof.
  intros m'. unfold m'. clear m'.
  destruct (sources_valid m imgs lbls cls) eqn:Hv.
  2:{ rewrite run_invalid by done. by left. }
  destruct (OS.mkdir_parents (out / "images") m) as [e|mi] eqn:H1.
  { rewrite (run_mkdir_images_fails _ _ _ _ _ _ _ _ Hv H1). by left. }
  pose proof (mkdir_parents_ancestors_added _ _ _ H1) as Ha1.
  destruct (OS.mkdir_parents (out / "labels") mi) as [e|ma] eqn:H2.
  { rewrite (run_mkdir_labels_fails _ _ _ _ _ _ _ _ _ Hv H1 H2). cbn [snd fs].
    destruct (Ha1 p) as [?|(? & ? & ?)]; [by left|right; left]. auto. }
  pose proof (mkdir_parents_ancestors_added _ _ _ H2) as Ha2.
  assert (Hout : output_dirs out m = inr ma) by (unfold output_dirs; by rewrite H1).
  destruct (output_dirs_inr _ _ _ Hout) as (Hadd & _ & _).
  destruct (run_summary order order_perm imgs lbls out cls m ma Hv Hout)
    as (k & sL & (Hloop & _) & ->).
  destruct (loop_run_facts _ _ _ _ _ Hloop) as (new & _ & HA & _ & HC & HD).
  cbn [fs] in HA, HC, HD.
  assert (Hnodir : ∀ q, is_dir ma q = false → is_dir m q = false).
  { intros q Hq. apply not_true_is_false. intros Hd.
    by rewrite (dirs_added_is_dir _ _ _ Hadd Hd) in Hq. }
  assert (HsL : stat (fs sL) p = stat m p ∨
    (stat m p = None ∧ stat (fs sL) p = Some Dir ∧
     (p `suffix_of` out / "images" ∨ p `suffix_of` out / "labels")) ∨
    (out `suffix_of` p ∧ p ≠ out ∧ is_dir m p = false ∧ is_file (fs sL) p = true)).
  { destruct (HD p) as [->|[src Hin]].
    - destruct (ancestors_added_trans _ _ _ _ _ Ha1 Ha2 p) as [?|?]; auto.
    - destruct (HC _ _ Hin) as (Hc & _ & data & _ & Hp).
      destruct (loop_copy_under _ _ _ _ _ Hc) as [Hu Hne].
      right; right. split_and!; [done..| |].
      + apply Hnodir. rewrite <- HA. unfold is_dir. by rewrite Hp.
      + unfold is_file. by rewrite Hp. }
  destruct (OS.copy2 cls _ (fs sL)) as [e|[mc tc]] eqn:Hcls; cbn [snd fs]; [done|].
  apply copy2_inr in Hcls as (Htc & _ & Hd & _ & data & _ & ->).
  destruct (decide (tc = p)) as [<-|Hne].
  - right; right.
    assert (Hu : out `suffix_of` tc ∧ tc ≠ out).
    { destruct (copy2_target_cases cls (out / PurePath.name cls) (fs sL)) as [Ht|Ht];
        rewrite <- Htc in Ht; rewrite Ht; split;
        try (by eexists [_]); try (by eexists [_; _]); intros H; path_len H. }
    destruct Hu as [Hu Hne]. split_and!; [done..| |].
    + apply Hnodir. by rewrite <- HA.
    + unfold is_file. rewrite stat_insert_eq; [done|]. intros ->. done.
  - unfold is_file. rewrite stat_insert_ne by done. exact HsL.
Qed.

End Changes.

Lemma sources_ext (imgs lbls cls : path) (m m' : filesystem) :
  (∀ p, is_source_path imgs lbls cls p → m' !! p = m !! p) →
  sources imgs lbls cls m' = sources imgs lbls cls m.
Proof.
  intros Hsame. apply map_eq. intros p. apply option_eq. intros v.
  unfold sources. rewrite !map_lookup_filter_Some. simpl.
  split; intros [Hv' Hp]; (split; [|done]).
  - by rewrite <- Hsame.
  - by rewrite Hsame.
Qed.

Section Frame.
Variable order : list string → list string.
Hypothesis order_perm : ∀ l, order l ≡ₚ l.
Variables imgs lbls out cls : path.

(** X11.  Outside the output directory the function writes nothing: a
    path that is not the output directory nor below it is after the run
    what it was before, unless it is a missing ancestor of the output
    directory, which [mkdir(parents=True)] creates as a directory. *)
Theorem writes_stay_in_output m p :
  ¬ out `suffix_of` p →
  let m' := fs (filter_annotated_data order imgs lbls out cls (State m [])).2 in
  stat m' p = stat m p ∨
  (stat m p = None ∧ stat m' p = Some Dir ∧ p `suffix_of` out).
Proof.
  intros Hp m'. subst m'.
  destruct (run_changes order order_perm imgs lbls out cls m p)
    as [H|[(Hn & Hd & Hs)|(Hu & _)]]; [by left| |done].
  right. split_and!; [done..|].
  destruct Hs as [Hs|Hs]; apply suffix_joinpath in Hs as [->|Hs]; try done.
  - exfalso. apply Hp. by eexists [_].
  - exfalso. apply Hp. by eexists [_].
Qed.

(** X12.  The function removes nothing and changes the kind of nothing:
    a directory stays a directory and a regular file stays a regular
    file (with new bytes at most), whatever the end of the run. *)
Theorem nothing_removed m p :
  let m' := fs (filter_annotated_data order imgs lbls out cls (State m [])).2 in
  (is_dir m p = true → is_dir m' p = true) ∧
  (is_file m p = true → is_file m' p = true) ∧
  (exists_ m p = true → exists_ m' p = true).
Proof.
  intros m'. subst m'.
  pose proof (run_changes order order_perm imgs lbls out cls m p) as H.
  cbv zeta in H. set (m' := fs _) in *.
  destruct H as [H|[(Hn & Hd & Hs)|(_ & _ & Hnd & Hf)]].
  - unfold is_dir, is_file, exists_. by rewrite H.
  - unfold is_dir, is_file, exists_. by rewrite Hn, Hd.
  - split_and!; [congruence|done|].
    intros _. unfold is_file in Hf. unfold exists_. by destruct (stat m' p).
Qed.

(** With the output directory and the sources apart, a run that passes
    the validation leaves every source path as it is. *)
Lemma apart_source_lookup m p :
  apart imgs lbls out cls →
  sources_valid m imgs lbls cls = true →
  is_source_path imgs lbls cls p →
  fs (filter_annotated_data order imgs lbls out cls (State m [])).2 !! p = m !! p.
Proof.
  intros (Hoi & Hio & Hol & Hlo & Hoc) Hv Hp.
  apply andb_prop in Hv as [[Hi%is_dir_stat Hl%is_dir_stat]%andb_prop
                              [dc Hc]%is_file_stat].
  destruct p as [|n d].
  { exfalso. destruct Hp as [<-|[<-|[<-|[<-|<-]]]]; try done.
    - apply Hio, suffix_nil.
    - apply Hlo, suffix_nil.
    - apply Hio, suffix_nil.
    - apply Hlo, suffix_nil. }
  set (m' := fs _).
  change (stat m' (n :: d) = stat m (n :: d)).
  destruct (run_changes order order_perm imgs lbls out cls m (n :: d))
    as [H|[(Hn & _ & Hs)|(Hu & Hne & _)]]; [done|exfalso..].
  - destruct Hp as [Hp|[Hp|[Hp|[Hp|Hp]]]]; simpl in Hp; subst; try congruence.
    + destruct Hs as [Hs|Hs]; apply suffix_joinpath in Hs as [[= _ <-]|Hs];
        first [by apply Hoi|by apply Hio; eapply suffix_of_joinpath].
    + destruct Hs as [Hs|Hs]; apply suffix_joinpath in Hs as [[= _ <-]|Hs];
        first [by apply Hol|by apply Hlo; eapply suffix_of_joinpath].
  - destruct Hp as [Hp|[Hp|[Hp|[Hp|Hp]]]]; simpl in Hp; subst; try done.
    + apply suffix_joinpath in Hu as [Hu|Hu]; [|done].
      apply Hio. rewrite Hu. by apply suffix_cons_r.
    + apply suffix_joinpath in Hu as [Hu|Hu]; [|done].
      apply Hlo. rewrite Hu. by apply suffix_cons_r.
Qed.

(** X13.  With the output directory and the sources apart, a run leaves
    the sources as they are, whatever its end: the two directories,
    their entries and the class file. *)
Theorem sources_untouched_when_apart m :
  apart imgs lbls out cls →
  sources imgs lbls cls (fs (filter_annotated_data order imgs lbls out cls (State m [])).2)
  = sources imgs lbls cls m.
Proof.
  intros Hapart. destruct (sources_valid m imgs lbls cls) eqn:Hv.
  - apply sources_ext. intros p Hp. by apply apart_source_lookup.
  - by rewrite run_invalid.
Qed.

End Frame.

(** ** Running twice *)

Section RunningTwice.
Variables order order' : list string → list string.
Hypothesis order_perm : ∀ l, order l ≡ₚ l.
Hypothesis order_perm' : ∀ l, order' l ≡ₚ l.
Variables imgs lbls out cls : path.



End RunningTwice.

(** ** When the function returns *)

Section Proceeds.
Variable order : list string → list string.
Hypothesis order_perm : ∀ l, order l ≡ₚ l.
Variables imgs lbls out cls : path.


End Proceeds.

(** ** The script as it is configured *)

Lemma configured_apart :
  apart SOURCE_IMAGES_FROM_LS_EXPORT SOURCE_LABELS_FROM_LS_EXPORT
    OUTPUT_FILTERED_DATA_DIR SOURCE_CLASSES_FILE_FROM_LS_EXPORT.
Proof. unfold apart. split_and!; apply (bool_decide_unpack _); vm_compute; exact I. Qed.

(** X15.  The script as it is configured (lines 90-102): the output
    directory "filtered_data" lies beside the images directory, the
    labels directory and the class file of the export, so the script
    leaves the export as it is on every file system, whatever its
    end. *)
Theorem main_leaves_export_untouched order m :
  (∀ l, order l ≡ₚ l) →
  sources SOURCE_IMAGES_FROM_LS_EXPORT SOURCE_LABELS_FROM_LS_EXPORT
    SOURCE_CLASSES_FILE_FROM_LS_EXPORT (fs (main order (State m [])).2)
  = sources SOURCE_IMAGES_FROM_LS_EXPORT SOURCE_LABELS_FROM_LS_EXPORT
      SOURCE_CLASSES_FILE_FROM_LS_EXPORT m.
Proof.
  intros order_perm. unfold main. rewrite script_eq.
  set (imgs := SOURCE_IMAGES_FROM_LS_EXPORT). set (lbls := SOURCE_LABELS_FROM_LS_EXPORT).
  set (cls := SOURCE_CLASSES_FILE_FROM_LS_EXPORT). set (out := OUTPUT_FILTERED_DATA_DIR).
  assert (Hfs : sources imgs lbls cls
                  (fs (filter_annotated_data order imgs lbls out cls (State m [])).2)
                = sources imgs lbls cls m).
  { destruct (sources_valid m imgs lbls cls) eqn:Hv; [|by rewrite run_invalid].
    apply sources_ext. intros p Hp.
    by apply apart_source_lookup; [|apply configured_apart|..]. }
  destruct (filter_annotated_data order imgs lbls out cls (State m []))
    as [[[]|e] s']; [done|]. by destruct (is_Exception e).
Qed.

(** ** The statements on example file systems *)

(** A closed decidable statement, by evaluation. *)
Ltac by_evaluation := apply (bool_decide_unpack _); vm_compute; exact I.

Lemma same_order_perm l : same_order l ≡ₚ l.
Proof. reflexivity. Qed.


(** The examples are trees. *)
Example examples_well_formed :
  well_formed export ∧ well_formed split_export ∧
  well_formed images_is_file ∧ well_formed output_is_file.
Proof. split_and!; by_evaluation. Qed.

Example export_run :
  filter_annotated_data same_order images labels filtered classes (State export []) =
  (Ok (), State export_filtered export_trace).
Proof. by_evaluation. Qed.

Example export_run_reverse_order :
  fs (filter_annotated_data reverse_order images labels filtered classes
        (State export [])).2 = export_filtered.
Proof. by_evaluation. Qed.

Example split_export_run :
  filter_annotated_data same_order images (annotations / "labels") data
    (annotations / "classes.txt") (State split_export []) =
  (Ok (),
   State (<[data / "classes.txt" := File [x63]]> split_export_prepared)
     split_export_trace).
Proof. by_evaluation. Qed.

Example output_is_file_run :
  filter_annotated_data same_order images labels filtered classes (State output_is_file []) =
  (Raise (NotADirectoryError (filtered / "images")), State output_is_file []).
Proof. by_evaluation. Qed.

Example images_is_file_run :
  filter_annotated_data same_order images labels filtered classes (State images_is_file []) =
  (Raise (SystemExit 1),
   State images_is_file [Logged ERROR (SourcesNotFound true true true)]).
Proof. by_evaluation. Qed.

(** A record that a computed trace does not hold. *)
Ltac not_in_trace :=
  let H := fresh in
  intros H; apply list_elem_of_In in H; vm_compute in H; intuition discriminate.

Lemma matched_pair_copied_identical_witness :
  let s' := (filter_annotated_data same_order images labels filtered classes
               (State export [])).2 in
  ∃ t1 t2,
    Copied (images / "f1.jpg") t1 ∈ trace s' ∧
    Copied (labels / "ab-f1.txt") t2 ∈ trace s' ∧
    (t1 = filtered / "images" / "f1.jpg" ∨
     t1 = filtered / "images" / "f1.jpg" / "f1.jpg") ∧
    (t2 = filtered / "labels" / "ab-f1.txt" ∨
     t2 = filtered / "labels" / "ab-f1.txt" / "ab-f1.txt") ∧
    stat (fs s') t1 = Some (File [x01; x02]) ∧ stat (fs s') t2 = Some (File [x11]).
Proof.
  apply (matched_pair_copied_identical same_order same_order_perm
           images labels filtered classes export export_prepared
           "ab-f1.txt" [x01; x02] [x11]).
  - by_evaluation.
  - by_evaluation.
  - by_evaluation.
  - by_evaluation.
  - by_evaluation.
  - intros e. not_in_trace.
Defined.

(** C1 as stated fails: the images directory is the "images" directory
    of the output, [shutil.copy2] refuses to copy the image onto itself,
    the handler logs the error, and the label is never copied. *)
Lemma matched_pair_not_always_copied :
  ¬ (∀ (order : list string → list string) (imgs lbls out cls : path)
       (m ma : filesystem) (x : string) (di dl : list byte),
       (∀ l, order l ≡ₚ l) →
       sources_valid m imgs lbls cls = true →
       output_dirs out m = inr ma →
       PyStr.lower (PurePath.suffix (lbls / x)) = ".txt" →
       stat m (lbls / x) = Some (File dl) →
       stat m (imgs / image_filename (lbls / x)) = Some (File di) →
       let n := image_filename (lbls / x) in
       let s' := (filter_annotated_data order imgs lbls out cls (State m [])).2 in
       ∃ t1 t2,
         Copied (imgs / n) t1 ∈ trace s' ∧ Copied (lbls / x) t2 ∈ trace s' ∧
         (t1 = out / "images" / n ∨ t1 = out / "images" / n / n) ∧
         (t2 = out / "labels" / x ∨ t2 = out / "labels" / x / x) ∧
         stat (fs s') t1 = Some (File di) ∧ stat (fs s') t2 = Some (File dl)).
Proof.
  intros H.
  destruct (H same_order images (annotations / "labels") data (annotations / "classes.txt")
              split_export split_export_prepared "ab-f1.txt" [x01; x02] [x11]
              same_order_perm
              ltac:(by_evaluation) ltac:(by_evaluation) ltac:(by_evaluation)
              ltac:(by_evaluation) ltac:(by_evaluation))
    as (t1 & t2 & _ & Hlabel & _).
  revert Hlabel. not_in_trace.
Qed.




Lemma copied_pair_keeps_names_witness :
  ∃ t1 t2,
    PurePath.name t1 = image_filename (labels / "ab-f1.txt") ∧
    PurePath.name t2 = PurePath.name (labels / "ab-f1.txt").
Proof.
  destruct (copied_pair_keeps_names images filtered (labels / "ab-f1.txt") 0
              (State export_prepared [])
              (State (<[filtered / "labels" / "ab-f1.txt" := File [x11]]>
                       (<[filtered / "images" / "f1.jpg" := File [x01; x02]]>
                          export_prepared))
                 [Copied (images / "f1.jpg") (filtered / "images" / "f1.jpg");
                  Copied (labels / "ab-f1.txt") (filtered / "labels" / "ab-f1.txt")]))
    as (t1 & t2 & _ & _ & _ & Hn1 & Hn2 & _).
  - by_evaluation.
  - exists t1, t2. exact (conj Hn1 Hn2).
Defined.

Lemma exit_iff_sources_invalid_witness :
  (filter_annotated_data same_order images labels filtered classes
     (State images_is_file [])).1 = Raise (SystemExit 1).
Proof.
  apply (exit_iff_sources_invalid same_order same_order_perm
           images labels filtered classes images_is_file).
  intros [Himages _]. vm_compute in Himages. discriminate.
Defined.

(** C4 as stated fails: the three paths exist, the images path as a
    regular file; the function exits with status 1 and creates nothing. *)
Lemma exit_though_sources_exist :
  ¬ (∀ (imgs lbls out cls : path) (m : filesystem),
       let r := filter_annotated_data same_order imgs lbls out cls (State m []) in
       (r.1 = Raise (SystemExit 1) ∧ fs r.2 = m) ↔
       (exists_ m imgs = false ∨ exists_ m lbls = false ∨ exists_ m cls = false)).
Proof.
  intros H.
  destruct (H images labels filtered classes images_is_file) as [Hexit _].
  destruct Hexit as [Hno|[Hno|Hno]].
  - split; by_evaluation.
  - vm_compute in Hno. discriminate.
  - vm_compute in Hno. discriminate.
  - vm_compute in Hno. discriminate.
Qed.

Lemma class_file_copied_after_loop_witness :
  ∃ k sL,
    process_labels images filtered (label_files same_order labels export_prepared) 0
      (State export_prepared (prelude filtered)) = (Ok k, sL) ∧
    ∀ src t, Copied src t ∈ trace sL →
      t ≠ filtered / PurePath.name classes ∧
      t ≠ filtered / PurePath.name classes / PurePath.name classes.
Proof.
  destruct (class_file_copied_after_loop same_order same_order_perm
              images labels filtered classes export export_prepared)
    as (k & sL & Hloop & Honce & _).
  - by_evaluation.
  - by_evaluation.
  - exists k, sL. exact (conj Hloop Honce).
Defined.

(** C5 as stated fails: the validation passes, but the output path is a
    regular file; [Path.mkdir] raises, the exception leaves the function
    and the class file is not copied. *)
Lemma class_file_not_always_copied :
  ¬ (∀ (imgs lbls out cls : path) (m : filesystem),
       sources_valid m imgs lbls cls = true →
       let r := filter_annotated_data same_order imgs lbls out cls (State m []) in
       ∃ t, Copied cls t ∈ trace r.2).
Proof.
  intros H.
  destruct (H images labels filtered classes output_is_file ltac:(by_evaluation))
    as [t Hcopy].
  revert Hcopy. not_in_trace.
Qed.

Lemma label_exception_caught_witness :
  process_labels images data [annotations / "labels" / "ab-f1.txt"] 0
    (State split_export_prepared []) =
  process_labels images data [] 0
    (State split_export_prepared
       ([] ++ [Logged ERROR (ErrorProcessingLabel
                               (PurePath.name (annotations / "labels" / "ab-f1.txt"))
                               (SameFileError (images / "f1.jpg") (images / "f1.jpg")))])).
Proof.
  apply (label_exception_caught same_order same_order_perm
           images (annotations / "labels") data (annotations / "classes.txt")
           (annotations / "labels" / "ab-f1.txt") [] 0
           (State split_export_prepared [])
           (SameFileError (images / "f1.jpg") (images / "f1.jpg"))
           (State split_export_prepared [])).
  by_evaluation.
Defined.

Lemma final_count_is_copied_pairs_witness :
  ∃ k before,
    trace (State export_filtered export_trace)
    = before ++ [Logged INFO (FilteringComplete k);
                 Logged INFO (FilteredDataAvailable filtered)] ∧
    k = List.length
          (filter (λ l, pair_copied images filtered
                          (trace (State export_filtered export_trace)) l = true)
             (label_files same_order labels export)).
Proof.
  apply (final_count_is_copied_pairs same_order same_order_perm
           images labels filtered classes export (State export_filtered export_trace)).
  by_evaluation.
Defined.


(** The two runs when the output directory is the labels directory: the
    first finds no label file, reports 0 pairs and puts "classes.txt"
    into the labels directory; the second takes that file for a label,
    finds the image "classes.jpg" and copies a pair. *)
Example output_is_labels_runs :
  let r1 := filter_annotated_data same_order images labels labels classes
              (State output_is_labels []) in
  let r2 := filter_annotated_data same_order images labels labels classes
              (State (fs r1.2) []) in
  r1.1 = Ok () ∧ r2.1 = Ok () ∧
  Logged INFO (FilteringComplete 0) ∈ trace r1.2 ∧
  Logged INFO (FilteringComplete 1) ∈ trace r2.2 ∧
  stat (fs r1.2) (labels / "classes.txt") = Some (File [x63]) ∧
  stat (fs r1.2) (labels / "labels" / "classes.txt") = None ∧
  stat (fs r2.2) (labels / "labels" / "classes.txt") = Some (File [x63]) ∧
  stat (fs r2.2) (labels / "images" / "classes.jpg") = Some (File [x01]).
Proof. split_and!; by_evaluation. Qed.


(** ** The further properties on the example file systems *)

Example further_examples_well_formed :
  well_formed labels_in_output ∧ well_formed not_annotated.
Proof. split; by_evaluation. Qed.

(** The script as configured, on an export with one annotated frame. *)
Example configured_export_run :
  well_formed configured_export ∧
  exit_status (main same_order (State configured_export [])).1 = 0%Z ∧
  stat (fs (main same_order (State configured_export [])).2)
    (OUTPUT_FILTERED_DATA_DIR / "images" / "frame_00100.jpg") = Some (File [x01; x02]) ∧
  stat (fs (main same_order (State configured_export [])).2)
    (OUTPUT_FILTERED_DATA_DIR / "labels" / "0a5581f7-frame_00100.txt") = Some (File [x11]).
Proof. split_and!; by_evaluation. Qed.

Lemma filter_annotated_data_well_formed_witness :
  well_formed
    (fs (filter_annotated_data same_order images labels filtered classes
           (State export [])).2).
Proof.
  apply (filter_annotated_data_well_formed same_order images labels filtered classes export).
  by_evaluation.
Defined.

Lemma output_dirs_created_iff_witness :
  (∃ ma, output_dirs filtered output_is_file = inr ma) ↔
  (∀ q, q `suffix_of` filtered / "images" ∨ q `suffix_of` filtered / "labels" →
        is_file output_is_file q = false).
Proof.
  apply (output_dirs_created_iff filtered output_is_file).
  by_evaluation.
Defined.


Lemma every_label_has_one_outcome_witness :
  ∃ k before,
    trace (State export_filtered export_trace) =
      before ++ [Logged INFO (FilteringComplete k);
                 Logged INFO (FilteredDataAvailable filtered)] ∧
    List.length (label_files same_order labels export) =
      k + count_records is_warning (trace (State export_filtered export_trace))
        + count_records is_error (trace (State export_filtered export_trace)).
Proof.
  apply (every_label_has_one_outcome same_order same_order_perm
           images labels filtered classes export (State export_filtered export_trace)).
  by_evaluation.
Defined.

Lemma records_name_label_files_witness :
  ∃ x, SkippingLabel "cd-f3.txt" "f3.jpg" = SkippingLabel x (image_filename (labels / x)) ∧
       is_label_file export (labels / x) = true ∧
       is_file export (images / image_filename (labels / x)) = false.
Proof.
  apply (records_name_label_files same_order same_order_perm
           images labels filtered classes export WARNING
           (SkippingLabel "cd-f3.txt" "f3.jpg")).
  by_evaluation.
Defined.


Lemma no_label_files_run_witness :
  filter_annotated_data same_order images labels filtered classes (State not_annotated []) =
    match OS.copy2 classes (filtered / PurePath.name classes) not_annotated_prepared with
    | inl e => (Raise e, State not_annotated_prepared (prelude filtered))
    | inr (m', tc) =>
        (Ok (), State m' (prelude filtered ++
                          [Copied classes tc;
                           Logged INFO (FilteringComplete 0);
                           Logged INFO (FilteredDataAvailable filtered)]))
    end.
Proof.
  apply (no_label_files_run same_order same_order_perm
           images labels filtered classes not_annotated not_annotated_prepared).
  - by_evaluation.
  - by_evaluation.
  - by_evaluation.
Defined.

Lemma image_kept_without_label_witness :
  let s' := (filter_annotated_data same_order pictures labels data
               (pictures / "classes.txt") (State labels_in_output [])).2 in
  Logged ERROR (ErrorProcessingLabel "ab-f1.txt"
                  (SameFileError (labels / "ab-f1.txt") (labels / "ab-f1.txt")))
    ∈ trace s' ∧
  Copied (pictures / image_filename (labels / "ab-f1.txt")) (data / "images" / "f1.jpg")
    ∈ trace s' ∧
  stat (fs s') (data / "images" / "f1.jpg") =
    stat labels_in_output (pictures / image_filename (labels / "ab-f1.txt")) ∧
  (∀ t, Copied (labels / "ab-f1.txt") t ∈ trace s' →
        labels / "ab-f1.txt" = pictures / "classes.txt").
Proof.
  apply (image_kept_without_label same_order same_order_perm
           pictures labels data (pictures / "classes.txt")
           labels_in_output labels_in_output_prepared "ab-f1.txt"
           (<[data / "images" / "f1.jpg" := File [x01; x02]]> labels_in_output_prepared)
           (data / "images" / "f1.jpg")
           (SameFileError (labels / "ab-f1.txt") (labels / "ab-f1.txt"))).
  - by_evaluation.
  - by_evaluation.
  - by_evaluation.
  - by_evaluation.
  - by_evaluation.
Defined.

Lemma writes_stay_in_output_witness :
  let m' := fs (filter_annotated_data same_order images labels filtered classes
                  (State export [])).2 in
  stat m' (labels / "ab-f1.txt") = stat export (labels / "ab-f1.txt") ∨
  (stat export (labels / "ab-f1.txt") = None ∧
   stat m' (labels / "ab-f1.txt") = Some Dir ∧
   labels / "ab-f1.txt" `suffix_of` filtered).
Proof.
  apply (writes_stay_in_output same_order same_order_perm
           images labels filtered classes export (labels / "ab-f1.txt")).
  by_evaluation.
Defined.

Lemma nothing_removed_witness :
  let m' := fs (filter_annotated_data same_order images labels filtered classes
                  (State export_filtered [])).2 in
  (is_dir export_filtered (filtered / "images" / "f1.jpg") = true →
   is_dir m' (filtered / "images" / "f1.jpg") = true) ∧
  (is_file export_filtered (filtered / "images" / "f1.jpg") = true →
   is_file m' (filtered / "images" / "f1.jpg") = true) ∧
  (exists_ export_filtered (filtered / "images" / "f1.jpg") = true →
   exists_ m' (filtered / "images" / "f1.jpg") = true).
Proof.
  apply (nothing_removed same_order same_order_perm
           images labels filtered classes export_filtered (filtered / "images" / "f1.jpg")).
Defined.

Lemma sources_untouched_when_apart_witness :
  sources images labels classes
    (fs (filter_annotated_data same_order images labels filtered classes
           (State export [])).2)
  = sources images labels classes export.
Proof.
  apply (sources_untouched_when_apart same_order same_order_perm
           images labels filtered classes export).
  unfold apart. split_and!; by_evaluation.
Defined.


Lemma main_leaves_export_untouched_witness :
  sources SOURCE_IMAGES_FROM_LS_EXPORT SOURCE_LABELS_FROM_LS_EXPORT
    SOURCE_CLASSES_FILE_FROM_LS_EXPORT (fs (main same_order (State configured_export [])).2)
  = sources SOURCE_IMAGES_FROM_LS_EXPORT SOURCE_LABELS_FROM_LS_EXPORT
      SOURCE_CLASSES_FILE_FROM_LS_EXPORT configured_export.
Proof.
  apply (main_leaves_export_untouched same_order configured_export same_order_perm).
Defined.
